(** * Credit ledger, slot grid and recurrence expander of the pet-care scheduler

    A shallow embedding of
    - [src/types/index.ts]       (weight table, record shapes),
    - [src/hooks/usePacks.ts]    (usePacks.registerOperation and the
                                  useSchedule hook: completeService,
                                  markAsNotDone, cancelService,
                                  revertServiceStatus),
    - the schedule page          (TIME_SLOTS, getOccupiedSlots, the
                                  ScheduleForm validate / generateRecurringDates /
                                  handleSubmit),
    - the PackForm               (capacity written for a sitter pack).

    Firestore collections are finite maps from document id to document data.
    JavaScript numbers that hold credits, weights, minutes and epoch
    milliseconds are integers ([Z]). *)

From Stdlib Require Import ZArith Lia Ascii String.
From stdpp Require Import gmap strings list fin_maps sorting pretty.

Local Open Scope Z_scope.

(* ===================================================================== *)
(** ** Types ([src/types/index.ts]) *)
(* ===================================================================== *)

(** [ServiceType = 'walk' | 'sitter']; the constructor for ['walk'] is
    spelled [walk_service] because ['walk'] is also an [OperationType]. *)
Inductive ServiceType := walk_service | sitter.

Inductive OperationType := walk | full_day | partial.

Inductive ScheduleStatus := scheduled | completed | cancelled | not_done.

#[global] Instance ServiceType_eq_dec : EqDecision ServiceType.
Proof. solve_decision. Defined.
#[global] Instance OperationType_eq_dec : EqDecision OperationType.
Proof. solve_decision. Defined.
#[global] Instance ScheduleStatus_eq_dec : EqDecision ScheduleStatus.
Proof. solve_decision. Defined.

(** [OPERATION_WEIGHTS: Record<OperationType, number>]. *)
Definition OPERATION_WEIGHTS (t : OperationType) : Z :=
  match t with
  | walk => 1
  | full_day => 2
  | partial => 1
  end.

(** A Firestore [Timestamp], as its number of milliseconds. *)
Definition Timestamp := Z.

(** The fields of a Pack document that the ledger reads or writes; the
    payment and date fields are never touched by the operations below. *)
Module Pack.
Record t := mk {
  clientId : string;
  serviceType : ServiceType;
  totalCredits : Z;
  usedCredits : Z;
  isActive : bool;
}.
End Pack.

(** [Omit<Operation, 'id'>]: the data of an Operation document. *)
Module Operation.
Record t := mk {
  packId : string;
  clientId : string;
  date : Timestamp;
  type : OperationType;
  weight : Z;
}.
End Operation.

(** The data of a ScheduledService document. [packId] and [completedAt] are
    optional / nullable in the source. *)
Module ScheduledService.
Record t := mk {
  clientId : string;
  packId : option string;
  scheduledDate : Timestamp;
  scheduledTime : string;
  duration : option Z;
  type : OperationType;
  status : ScheduleStatus;
  completedAt : option Timestamp;
}.
End ScheduledService.

(** [ScheduledServiceWithClient]: the snapshot a caller hands to the hook,
    i.e. the document id together with the document data ([{ id: docSnap.id,
    ...docSnap.data() }]). The joined client is not used by the hook. *)
Record ScheduledServiceWithClient := {
  id : string;
  doc : ScheduledService.t;
}.

(* ===================================================================== *)
(** ** The document store and Firestore's transaction primitive *)
(* ===================================================================== *)

Record Store := {
  packs : gmap string Pack.t;
  operations : gmap string Operation.t;
  scheduledServices : gmap string ScheduledService.t;
}.

(** What a hook call can throw. The message of the thrown [Error]:
    - [PackNotFound]        'Pacote não encontrado'
    - [InsufficientCredits] 'Créditos insuficientes no pacote'
    - [UpdateFailed]        'Erro ao atualizar agendamento'
      (thrown by updateScheduledService when updateDoc rejects)
    - [DocumentNotFound]    Firestore's own NOT_FOUND, raised when a
      transaction updates a document that does not exist. *)
Inductive Error :=
  | PackNotFound
  | InsufficientCredits
  | UpdateFailed
  | DocumentNotFound.

Inductive Outcome :=
  | Ok
  | Failed (e : Error).

(** The body of [runTransaction(db, async (transaction) => ...)]: a
    computation over the store that either throws or yields a value and the
    store with the writes applied. *)
Definition Tx (A : Type) : Type := Store -> Error + (A * Store).

Definition tx_ret {A} (a : A) : Tx A := fun st => inr (a, st).

Definition tx_bind {A B} (m : Tx A) (k : A -> Tx B) : Tx B :=
  fun st =>
    match m st with
    | inl e => inl e
    | inr (a, st') => k a st'
    end.

Definition throw {A} (e : Error) : Tx A := fun _ => inl e.

Declare Scope tx_scope.
Delimit Scope tx_scope with tx.
Notation "x <- m ;; k" := (tx_bind m (fun x => k))
  (at level 100, m at next level, right associativity) : tx_scope.
Notation "m ;;; k" := (tx_bind m (fun _ => k))
  (at level 100, right associativity) : tx_scope.

(** [transaction.get(packRef)], with [packDoc.exists()] as [Some]. *)
Definition tx_get_pack (packId : string) : Tx (option Pack.t) :=
  fun st => inr (packs st !! packId, st).

(** [transaction.update(packRef, fields)]: a partial update [f] of an
    existing document; updating a missing document fails the transaction. *)
Definition tx_update_pack (packId : string) (f : Pack.t -> Pack.t) : Tx unit :=
  fun st =>
    match packs st !! packId with
    | Some p =>
        inr (tt, {| packs := <[packId := f p]> (packs st);
                    operations := operations st;
                    scheduledServices := scheduledServices st |})
    | None => inl DocumentNotFound
    end.

(** [transaction.set(operationRef, operationData)]. *)
Definition tx_set_operation (operationRef : string) (d : Operation.t) : Tx unit :=
  fun st =>
    inr (tt, {| packs := packs st;
                operations := <[operationRef := d]> (operations st);
                scheduledServices := scheduledServices st |}).

(** [transaction.delete(opDoc.ref)]. *)
Definition tx_delete_operation (opRef : string) : Tx unit :=
  fun st =>
    inr (tt, {| packs := packs st;
                operations := delete opRef (operations st);
                scheduledServices := scheduledServices st |}).

(** [transaction.update(serviceRef, fields)]. *)
Definition tx_update_service (serviceId : string)
    (f : ScheduledService.t -> ScheduledService.t) : Tx unit :=
  fun st =>
    match scheduledServices st !! serviceId with
    | Some s =>
        inr (tt, {| packs := packs st;
                    operations := operations st;
                    scheduledServices := <[serviceId := f s]> (scheduledServices st) |})
    | None => inl DocumentNotFound
    end.

(** [getDocs(query(operationsRef, where('packId','==',p),
    where('clientId','==',c), where('date','==',d)))]: the references of all
    matching documents. *)
Definition operation_matches (p c : string) (d : Timestamp) (o : Operation.t) : bool :=
  bool_decide (Operation.packId o = p)
  && bool_decide (Operation.clientId o = c)
  && bool_decide (Operation.date o = d).

Definition tx_query_operations (p c : string) (d : Timestamp) : Tx (list string) :=
  fun st =>
    inr ((map_to_list
            (filter (fun kv => operation_matches p c d kv.2 = true) (operations st))).*1,
         st).

(** [docs.forEach(f)]. *)
Fixpoint tx_forEach {A} (l : list A) (f : A -> Tx unit) : Tx unit :=
  match l with
  | [] => tx_ret tt
  | x :: l' => tx_bind (f x) (fun _ => tx_forEach l' f)
  end.

(** [runTransaction]: all writes are committed together, or, when the body
    throws, none is. *)
Definition runTransaction (body : Tx unit) (st : Store) : Outcome * Store :=
  match body st with
  | inl e => (Failed e, st)
  | inr (_, st') => (Ok, st')
  end.

(* ===================================================================== *)
(** ** The hooks ([src/hooks/usePacks.ts]) *)
(* ===================================================================== *)

(** JavaScript truthiness of [service.packId]: [undefined], [null] and the
    empty string are falsy. *)
Definition truthy_packId (p : option string) : option string :=
  match p with
  | Some s => if bool_decide (s = EmptyString) then None else Some s
  | None => None
  end.

(** The field updates written by the hooks. *)
Definition debit_fields (newUsedCredits : Z) (packData : Pack.t) (p : Pack.t) : Pack.t :=
  {| Pack.clientId := Pack.clientId p;
     Pack.serviceType := Pack.serviceType p;
     Pack.totalCredits := Pack.totalCredits p;
     Pack.usedCredits := newUsedCredits;
     (* ...(newUsedCredits >= packData.totalCredits && { isActive: false }) *)
     Pack.isActive :=
       if newUsedCredits >=? Pack.totalCredits packData then false
       else Pack.isActive p |}.

Definition credit_fields (newUsedCredits : Z) (p : Pack.t) : Pack.t :=
  {| Pack.clientId := Pack.clientId p;
     Pack.serviceType := Pack.serviceType p;
     Pack.totalCredits := Pack.totalCredits p;
     Pack.usedCredits := newUsedCredits;
     Pack.isActive := true |}.

Definition status_fields (s : ScheduleStatus) (d : ScheduledService.t)
    : ScheduledService.t :=
  {| ScheduledService.clientId := ScheduledService.clientId d;
     ScheduledService.packId := ScheduledService.packId d;
     ScheduledService.scheduledDate := ScheduledService.scheduledDate d;
     ScheduledService.scheduledTime := ScheduledService.scheduledTime d;
     ScheduledService.duration := ScheduledService.duration d;
     ScheduledService.type := ScheduledService.type d;
     ScheduledService.status := s;
     ScheduledService.completedAt := ScheduledService.completedAt d |}.

Definition status_completedAt_fields (s : ScheduleStatus) (c : option Timestamp)
    (d : ScheduledService.t) : ScheduledService.t :=
  {| ScheduledService.clientId := ScheduledService.clientId d;
     ScheduledService.packId := ScheduledService.packId d;
     ScheduledService.scheduledDate := ScheduledService.scheduledDate d;
     ScheduledService.scheduledTime := ScheduledService.scheduledTime d;
     ScheduledService.duration := ScheduledService.duration d;
     ScheduledService.type := ScheduledService.type d;
     ScheduledService.status := s;
     ScheduledService.completedAt := c |}.

(** usePacks.registerOperation. [now] is [Timestamp.now()] and
    [operationRef] the auto-generated id of [doc(collection(db, OPERATIONS))]. *)
Definition registerOperation (packId clientId : string) (operationType : OperationType)
    (now : Timestamp) (operationRef : string) (st : Store) : Outcome * Store :=
  let weight := OPERATION_WEIGHTS operationType in
  runTransaction
    (packDoc <- tx_get_pack packId ;;
     match packDoc with
     | None => throw PackNotFound
     | Some packData =>
         let newUsedCredits := Pack.usedCredits packData + weight in
         if newUsedCredits >? Pack.totalCredits packData then
           throw InsufficientCredits
         else
           let operationData :=
             {| Operation.packId := packId;
                Operation.clientId := clientId;
                Operation.date := now;
                Operation.type := operationType;
                Operation.weight := weight |} in
           tx_update_pack packId (debit_fields newUsedCredits packData) ;;;
           tx_set_operation operationRef operationData
     end)%tx st.

(** useSchedule.updateScheduledService: [updateDoc] on one document; a
    rejection is caught and rethrown as 'Erro ao atualizar agendamento'. *)
Definition updateScheduledService (serviceId : string)
    (f : ScheduledService.t -> ScheduledService.t) (st : Store) : Outcome * Store :=
  match scheduledServices st !! serviceId with
  | Some s =>
      (Ok, {| packs := packs st;
              operations := operations st;
              scheduledServices := <[serviceId := f s]> (scheduledServices st) |})
  | None => (Failed UpdateFailed, st)
  end.

(** useSchedule.completeService. *)
Definition completeService (service : ScheduledServiceWithClient)
    (now : Timestamp) (operationRef : string) (st : Store) : Outcome * Store :=
  let weight := OPERATION_WEIGHTS (ScheduledService.type (doc service)) in
  match truthy_packId (ScheduledService.packId (doc service)) with
  | Some packId =>
      runTransaction
        (packDoc <- tx_get_pack packId ;;
         match packDoc with
         | None => throw PackNotFound
         | Some packData =>
             let newUsedCredits := Pack.usedCredits packData + weight in
             if newUsedCredits >? Pack.totalCredits packData then
               throw InsufficientCredits
             else
               let operationData :=
                 {| Operation.packId := packId;
                    Operation.clientId := ScheduledService.clientId (doc service);
                    Operation.date := ScheduledService.scheduledDate (doc service);
                    Operation.type := ScheduledService.type (doc service);
                    Operation.weight := weight |} in
               tx_update_pack packId (debit_fields newUsedCredits packData) ;;;
               tx_set_operation operationRef operationData ;;;
               tx_update_service (id service)
                 (status_completedAt_fields completed (Some now))
         end)%tx st
  | None =>
      updateScheduledService (id service)
        (status_completedAt_fields completed (Some now)) st
  end.

(** useSchedule.markAsNotDone and useSchedule.cancelService. *)
Definition markAsNotDone (serviceId : string) (st : Store) : Outcome * Store :=
  updateScheduledService serviceId (status_fields not_done) st.

Definition cancelService (serviceId : string) (st : Store) : Outcome * Store :=
  updateScheduledService serviceId (status_fields cancelled) st.

(** useSchedule.revertServiceStatus. *)
Definition revertServiceStatus (service : ScheduledServiceWithClient)
    (st : Store) : Outcome * Store :=
  let weight := OPERATION_WEIGHTS (ScheduledService.type (doc service)) in
  match
    (if bool_decide (ScheduledService.status (doc service) = completed)
     then truthy_packId (ScheduledService.packId (doc service))
     else None)
  with
  | Some packId =>
      runTransaction
        (packDoc <- tx_get_pack packId ;;
         match packDoc with
         | None => throw PackNotFound
         | Some packData =>
             let newUsedCredits := Z.max 0 (Pack.usedCredits packData - weight) in
             operationsSnapshot <-
               tx_query_operations packId
                 (ScheduledService.clientId (doc service))
                 (ScheduledService.scheduledDate (doc service)) ;;
             tx_forEach operationsSnapshot tx_delete_operation ;;;
             tx_update_pack packId (credit_fields newUsedCredits) ;;;
             tx_update_service (id service)
               (status_completedAt_fields scheduled None)
         end)%tx st
  | None =>
      updateScheduledService (id service)
        (status_completedAt_fields scheduled None) st
  end.

(** The ledger operations as one type: the debit of a completion, the
    credit of a reversal, and the direct registration of an operation. *)
Inductive LedgerOp :=
  | Debit (service : ScheduledServiceWithClient) (now : Timestamp) (operationRef : string)
  | Credit (service : ScheduledServiceWithClient)
  | Register (packId clientId : string) (operationType : OperationType)
             (now : Timestamp) (operationRef : string).

Definition run_ledger_op (op : LedgerOp) (st : Store) : Outcome * Store :=
  match op with
  | Debit service now operationRef => completeService service now operationRef st
  | Credit service => revertServiceStatus service st
  | Register p c t now operationRef => registerOperation p c t now operationRef st
  end.

(** The Pack invariant of the data model. *)
Definition pack_inv (p : Pack.t) : Prop :=
  0 <= Pack.usedCredits p <= Pack.totalCredits p.

Definition store_inv (st : Store) : Prop :=
  forall packId p, packs st !! packId = Some p -> pack_inv p.

(* ===================================================================== *)
(** ** The slot grid (schedule page: TIME_SLOTS, getOccupiedSlots) *)
(* ===================================================================== *)

(** An entry of the catalog. The third field of the source, [labelFull], is
    display text only and is left out. *)
Module TimeSlot.
Record t := mk {
  value : string;
  label : string;
}.
End TimeSlot.

(** [const TIME_SLOTS]: time slots for scheduling (30 min intervals). *)
Definition TIME_SLOTS : list TimeSlot.t :=
  [ TimeSlot.mk "06:50-07:20" "06h50";
    TimeSlot.mk "07:30-08:00" "07h30";
    TimeSlot.mk "08:00-08:30" "08h00";
    TimeSlot.mk "09:00-09:30" "09h00";
    TimeSlot.mk "09:30-10:00" "09h30";
    TimeSlot.mk "10:30-11:00" "10h30";
    TimeSlot.mk "11:00-11:30" "11h00";
    TimeSlot.mk "14:30-15:00" "14h30";
    TimeSlot.mk "15:00-15:30" "15h00";
    TimeSlot.mk "16:00-16:30" "16h00";
    TimeSlot.mk "16:30-17:00" "16h30";
    TimeSlot.mk "17:30-18:00" "17h30";
    TimeSlot.mk "18:00-18:30" "18h00" ].

(** The slot codes of the catalog, in catalog order. *)
Definition slot_codes : list string := TimeSlot.value <$> TIME_SLOTS.

(** [Array.prototype.findIndex]: the index of the first element that
    satisfies [f], or [-1]. *)
Fixpoint findIndex_from {A} (f : A -> bool) (l : list A) (i : Z) : Z :=
  match l with
  | [] => -1
  | x :: l' => if f x then i else findIndex_from f l' (i + 1)
  end.

Definition findIndex {A} (f : A -> bool) (l : list A) : Z := findIndex_from f l 0.

(** [Math.ceil(a / b)] on integers, for a positive divisor. *)
Definition Math_ceil_div (a b : Z) : Z := - ((- a) / b).

(** The [for] loop of getOccupiedSlots,
    [for (let i = 0; i < slotsNeeded && startIndex + i < TIME_SLOTS.length; i++)],
    entered with loop variable [i] and the slots pushed so far. Each round
    consumes one unit of [fuel]; [getOccupiedSlots_loop_fuel] below shows the
    fuel given by [getOccupiedSlots] is never the reason the loop stops. *)
Fixpoint getOccupiedSlots_loop (fuel : nat) (startIndex slotsNeeded i : Z)
    (slots : list string) : list string :=
  match fuel with
  | O => slots
  | S fuel' =>
      if (i <? slotsNeeded) && (startIndex + i <? Z.of_nat (length TIME_SLOTS)) then
        match TIME_SLOTS !! Z.to_nat (startIndex + i) with
        | Some s =>
            getOccupiedSlots_loop fuel' startIndex slotsNeeded (i + 1)
              (slots ++ [TimeSlot.value s])
        | None => slots
        end
      else slots
  end.

(** [getOccupiedSlots(startSlot, duration = 30)]: the list of slots occupied
    by a service. *)
Definition getOccupiedSlots (startSlot : string) (duration : Z) : list string :=
  let startIndex :=
    findIndex (fun s => bool_decide (TimeSlot.value s = startSlot)) TIME_SLOTS in
  if startIndex =? -1 then [startSlot]
  else
    let slotsNeeded := Math_ceil_div duration 30 in
    getOccupiedSlots_loop (length TIME_SLOTS) startIndex slotsNeeded 0 [].

(* ===================================================================== *)
(** ** JavaScript dates, as far as the schedule form uses them *)
(* ===================================================================== *)

(** A valid [Date] is its time value in milliseconds, read in the one local
    calendar the application assumes (no daylight-saving shifts). The
    definitions follow ECMAScript's Day, WeekDay, MakeDay and MakeDate. *)
Module JSDate.

Definition msPerDay : Z := 86400000.
Definition msPerHour : Z := 3600000.
Definition msPerMinute : Z := 60000.
Definition msPerSecond : Z := 1000.

Definition Day (t : Z) : Z := t / msPerDay.

(** [WeekDay(t)]: 0 = Sunday .. 6 = Saturday; day 0 was a Thursday. *)
Definition WeekDay (t : Z) : Z := (Day t + 4) mod 7.

(** Day number of the civil date [year]-[month]-[date], months 1..12. *)
Definition days_from_civil (year month date : Z) : Z :=
  let y := if month <=? 2 then year - 1 else year in
  let era := y / 400 in
  let yoe := y - era * 400 in
  let mp := if month >? 2 then month - 3 else month + 9 in
  let doy := (153 * mp + 2) / 5 + date - 1 in
  let doe := yoe * 365 + yoe / 4 - yoe / 100 + doy in
  era * 146097 + doe - 719468.

(** The civil date (year, month 1..12, day of month) of a day number. *)
Definition civil_from_days (z : Z) : Z * Z * Z :=
  let z' := z + 719468 in
  let era := z' / 146097 in
  let doe := z' - era * 146097 in
  let yoe := (doe - doe / 1460 + doe / 36524 - doe / 146096) / 365 in
  let doy := doe - (365 * yoe + yoe / 4 - yoe / 100) in
  let mp := (5 * doy + 2) / 153 in
  let d := doy - (153 * mp + 2) / 5 + 1 in
  let m := if mp <? 10 then mp + 3 else mp - 9 in
  (if m <=? 2 then yoe + era * 400 + 1 else yoe + era * 400, m, d).

(** [MakeDay(year, month, date)], month index 0-based and possibly out of
    0..11: the day number of the first of the month, plus [date - 1]. *)
Definition MakeDay (year month date : Z) : Z :=
  let ym := year + month / 12 in
  let mn := month mod 12 in
  days_from_civil ym (mn + 1) 1 + date - 1.

Definition MakeTime (hour min sec ms : Z) : Z :=
  hour * msPerHour + min * msPerMinute + sec * msPerSecond + ms.

Definition MakeDate (day time : Z) : Z := day * msPerDay + time.

Definition TimeWithinDay (t : Z) : Z := t mod msPerDay.

(** [new Date(year, monthIndex, day, hours, minutes, seconds)]; years 0..99
    denote 1900..1999. *)
Definition make (year monthIndex day hours minutes seconds : Z) : Z :=
  let yr := if (0 <=? year) && (year <=? 99) then 1900 + year else year in
  MakeDate (MakeDay yr monthIndex day) (MakeTime hours minutes seconds 0).

Definition getFullYear (t : Z) : Z := (civil_from_days (Day t)).1.1.
Definition getMonth (t : Z) : Z := (civil_from_days (Day t)).1.2 - 1.
Definition getDate (t : Z) : Z := (civil_from_days (Day t)).2.
Definition getDay (t : Z) : Z := WeekDay t.

(** [d.setDate(dt)]: the day of month replaced, the time within the day
    kept; the new time value. *)
Definition setDate (t dt : Z) : Z :=
  MakeDate (MakeDay (getFullYear t) (getMonth t) dt) (TimeWithinDay t).

End JSDate.

(* ===================================================================== *)
(** ** Strings of the form, as JavaScript reads them *)
(* ===================================================================== *)

(** [s.split('-')] for a one-character separator. *)
Fixpoint split_on (sep : ascii) (s : string) : list string :=
  match s with
  | EmptyString => [EmptyString]
  | String c s' =>
      if bool_decide (c = sep) then EmptyString :: split_on sep s'
      else
        match split_on sep s' with
        | [] => [String c EmptyString]
        | w :: ws => String c w :: ws
        end
  end.

Definition digit_of (c : ascii) : option Z :=
  let n := Z.of_N (N_of_ascii c) in
  if (48 <=? n) && (n <=? 57) then Some (n - 48) else None.

Fixpoint digits_value (s : string) (acc : Z) : option Z :=
  match s with
  | EmptyString => Some acc
  | String c s' =>
      match digit_of c with
      | Some v => digits_value s' (10 * acc + v)
      | None => None
      end
  end.

(** [Number(s)] on the strings a date field splits into: a run of decimal
    digits is its value, the empty string is 0; [None] stands for [NaN]. *)
Definition Number (s : string) : option Z := digits_value s 0.

(** [const [y, m, d] = s.split('-').map(Number)]: the first three entries,
    each of which must be a number for the [Date] built from them to be
    valid. *)
Definition parse_ymd (s : string) : option (Z * Z * Z) :=
  match Number <$> split_on "-"%char s with
  | Some y :: Some m :: Some d :: _ => Some (y, m, d)
  | _ => None
  end.

(** [a <= b] on strings: lexicographic order of the character codes. *)
Definition js_string_le (a b : string) : bool := String.leb a b.

(* ===================================================================== *)
(** ** The schedule form (validate, generateRecurringDates, handleSubmit) *)
(* ===================================================================== *)

Module ScheduleForm.

(** [formData] of the component. *)
Record FormData := {
  clientId : string;
  scheduledDate : string;
  scheduledTime : string;
  duration : Z;
  type : OperationType;
  notes : string;
  isExtra : bool;
}.

(** The component state read by validate and handleSubmit. [activePacks]
    holds the ids of the selected client's active packs. *)
Record State := {
  formData : FormData;
  isRecurring : bool;
  selectedWeekdays : list Z;
  recurrenceEndDate : string;
  activePacks : list string;
}.

(** The argument of one [onSubmit] call, i.e. one booking to create.
    [scheduledDate] is [None] for an Invalid Date. *)
Record Submission := {
  sub_clientId : string;
  sub_packId : option string;
  sub_scheduledDate : option Z;
  sub_scheduledTime : string;
  sub_duration : Z;
  sub_type : OperationType;
  sub_notes : string;
  sub_isExtra : bool;
}.

(** [validate]: the error messages by field, and whether there is none. *)
Definition validate (s : State) : gmap string string * bool :=
  let newErrors : gmap string string := ∅ in
  let newErrors :=
    if bool_decide (clientId (formData s) = EmptyString)
    then <["clientId" := "Selecione um cliente"]> newErrors else newErrors in
  let newErrors :=
    if bool_decide (scheduledDate (formData s) = EmptyString)
    then <["scheduledDate" := "Data é obrigatória"]> newErrors else newErrors in
  let newErrors :=
    if isRecurring s then
      let newErrors :=
        if Z.of_nat (length (selectedWeekdays s)) =? 0
        then <["weekdays" := "Selecione pelo menos um dia da semana"]> newErrors
        else newErrors in
      let newErrors :=
        if bool_decide (recurrenceEndDate s = EmptyString)
        then <["endDate" := "Data final é obrigatória"]> newErrors
        else newErrors in
      let newErrors :=
        if negb (bool_decide (recurrenceEndDate s = EmptyString))
           && js_string_le (recurrenceEndDate s) (scheduledDate (formData s))
        then <["endDate" := "Data final deve ser posterior à data inicial"]> newErrors
        else newErrors in
      newErrors
    else newErrors in
  (newErrors, bool_decide (size newErrors = 0%nat)).

(** [selectedWeekdays.includes(n)]. *)
Definition includes (l : list Z) (n : Z) : bool := bool_decide (n ∈ l).

(** The [while (currentDate <= endDate)] loop of generateRecurringDates. Each
    round consumes one unit of [fuel]; [generateRecurringDates_loop_fuel]
    below shows the fuel given by [generateRecurringDates] is never the
    reason the loop stops. *)
Fixpoint generateRecurringDates_loop (fuel : nat) (currentDate endDate : Z)
    (weekdays : list Z) (dates : list Z) : list Z :=
  match fuel with
  | O => dates
  | S fuel' =>
      if currentDate <=? endDate then
        let dates :=
          if includes weekdays (JSDate.getDay currentDate)
          then dates ++ [JSDate.make (JSDate.getFullYear currentDate)
                           (JSDate.getMonth currentDate)
                           (JSDate.getDate currentDate) 12 0 0]
          else dates in
        generateRecurringDates_loop fuel'
          (JSDate.setDate currentDate (JSDate.getDate currentDate + 1))
          endDate weekdays dates
      else dates
  end.

(** [generateRecurringDates]. When either string does not yield three
    numbers the corresponding [Date] is invalid, the loop test is false and
    the result is empty. *)
Definition generateRecurringDates (s : State) : list Z :=
  match parse_ymd (scheduledDate (formData s)), parse_ymd (recurrenceEndDate s) with
  | Some (startYear, startMonth, startDay), Some (endYear, endMonth, endDay) =>
      let startDate := JSDate.make startYear (startMonth - 1) startDay 0 0 0 in
      let endDate := JSDate.make endYear (endMonth - 1) endDay 0 0 0 in
      let currentDate := startDate in
      generateRecurringDates_loop
        (Z.to_nat ((endDate - currentDate) / JSDate.msPerDay + 1))
        currentDate endDate (selectedWeekdays s) []
  | _, _ => []
  end.

Definition submission_for (s : State) (date : option Z) : Submission :=
  {| sub_clientId := clientId (formData s);
     sub_packId := head (activePacks s);
     sub_scheduledDate := date;
     sub_scheduledTime := scheduledTime (formData s);
     sub_duration := duration (formData s);
     sub_type := type (formData s);
     sub_notes := notes (formData s);
     sub_isExtra := isExtra (formData s) |}.

(** [handleSubmit]: the [onSubmit] calls it makes, in order; each call
    creates one booking record. *)
Definition handleSubmit (s : State) : list Submission :=
  if negb (validate s).2 then []
  else if isRecurring s then
    (fun d => submission_for s (Some d)) <$> generateRecurringDates s
  else
    match parse_ymd (scheduledDate (formData s)) with
    | Some (year, month, day) =>
        [submission_for s (Some (JSDate.make year (month - 1) day 12 0 0))]
    | None => [submission_for s None]
    end.

End ScheduleForm.

(* ===================================================================== *)
(** ** Slot codes as time ranges *)
(* ===================================================================== *)




(* ===================================================================== *)
(** ** The capacity a PackForm writes *)
(* ===================================================================== *)

(** PackForm.handleSubmit:
    [totalCredits: formData.serviceType === 'sitter' ? 9999 : formData.totalCredits]
    (commented "Ilimitado para sitter" in the source). *)
Definition PackForm_totalCredits (serviceType : ServiceType) (formTotalCredits : Z) : Z :=
  match serviceType with
  | sitter => 9999
  | walk_service => formTotalCredits
  end.

(* ===================================================================== *)
(** ** Concrete stores used by the scenarios *)
(* ===================================================================== *)

Module Scenario.

(** Noon of 2024-01-01, local time. *)
Definition day1 : Timestamp := 1704110400000.

Definition pack (kind : ServiceType) (total used : Z) (active : bool) : Pack.t :=
  {| Pack.clientId := "client1";
     Pack.serviceType := kind;
     Pack.totalCredits := total;
     Pack.usedCredits := used;
     Pack.isActive := active |}.

Definition booking (t : OperationType) (s : ScheduleStatus)
    (c : option Timestamp) : ScheduledService.t :=
  {| ScheduledService.clientId := "client1";
     ScheduledService.packId := Some "pack1";
     ScheduledService.scheduledDate := day1;
     ScheduledService.scheduledTime := "07:30-08:00";
     ScheduledService.duration := Some 60;
     ScheduledService.type := t;
     ScheduledService.status := s;
     ScheduledService.completedAt := c |}.

Definition operation (t : OperationType) : Operation.t :=
  {| Operation.packId := "pack1";
     Operation.clientId := "client1";
     Operation.date := day1;
     Operation.type := t;
     Operation.weight := OPERATION_WEIGHTS t |}.

(** One pack "pack1" and one booking "svc1" linked to it, no operation yet. *)
Definition one_booking (p : Pack.t) (b : ScheduledService.t) : Store :=
  {| packs := {[ "pack1" := p ]};
     operations := ∅;
     scheduledServices := {[ "svc1" := b ]} |}.

Definition snapshot (serviceId : string) (b : ScheduledService.t)
    : ScheduledServiceWithClient :=
  {| id := serviceId; doc := b |}.

(** Pack(total=8, used=7), with a scheduled walk or a scheduled full day. *)
Definition walk_8_7 : Store :=
  one_booking (pack walk_service 8 7 true) (booking walk scheduled None).

Definition full_day_8_7 : Store :=
  one_booking (pack walk_service 8 7 true) (booking full_day scheduled None).

(** A sitter pack as the PackForm creates it, fully or almost used. *)
Definition sitter_total : Z := PackForm_totalCredits sitter 8.

Definition sitter_full : Store :=
  one_booking (pack sitter sitter_total 9999 true) (booking partial scheduled None).

Definition sitter_last : Store :=
  one_booking (pack sitter sitter_total 9998 true) (booking partial scheduled None).

(** Two completed walks of the same client on the same pack and the same
    scheduled date, each with the Operation its completion created. *)
Definition same_day_twice : Store :=
  {| packs := {[ "pack1" := pack walk_service 8 2 true ]};
     operations := <[ "op1" := operation walk ]> {[ "op2" := operation walk ]};
     scheduledServices :=
       <[ "svc1" := booking walk completed (Some day1) ]>
         {[ "svc2" := booking walk completed (Some day1) ]} |}.

(** The recurrence request 2024-01-01 .. 2024-01-15 on Mondays and
    Wednesdays. *)
Definition jan_form : ScheduleForm.FormData :=
  {| ScheduleForm.clientId := "client1";
     ScheduleForm.scheduledDate := "2024-01-01";
     ScheduleForm.scheduledTime := "07:30-08:00";
     ScheduleForm.duration := 60;
     ScheduleForm.type := walk;
     ScheduleForm.notes := "";
     ScheduleForm.isExtra := false |}.

Definition jan_mon_wed : ScheduleForm.State :=
  {| ScheduleForm.formData := jan_form;
     ScheduleForm.isRecurring := true;
     ScheduleForm.selectedWeekdays := [1; 3];
     ScheduleForm.recurrenceEndDate := "2024-01-15";
     ScheduleForm.activePacks := ["pack1"] |}.

(** The same request with the end date equal to the start date, and with no
    weekday selected. *)
Definition jan_end_is_start : ScheduleForm.State :=
  {| ScheduleForm.formData := jan_form;
     ScheduleForm.isRecurring := true;
     ScheduleForm.selectedWeekdays := [1; 3];
     ScheduleForm.recurrenceEndDate := "2024-01-01";
     ScheduleForm.activePacks := ["pack1"] |}.

Definition jan_no_weekday : ScheduleForm.State :=
  {| ScheduleForm.formData := jan_form;
     ScheduleForm.isRecurring := true;
     ScheduleForm.selectedWeekdays := [];
     ScheduleForm.recurrenceEndDate := "2024-01-15";
     ScheduleForm.activePacks := ["pack1"] |}.

End Scenario.

(* ===================================================================== *)
(** ** The remaining operations of the useSchedule hook *)
(* ===================================================================== *)

(** useSchedule.deleteScheduledService: [deleteDoc] on one document.
    Deleting a document that does not exist is not an error in Firestore. *)
Definition deleteScheduledService (serviceId : string) (st : Store) : Outcome * Store :=
  (Ok, {| packs := packs st;
          operations := operations st;
          scheduledServices := delete serviceId (scheduledServices st) |}).

(** The booking as the store holds it, handed back to a hook: what the
    snapshot listener gives the pages ([{ id: docSnap.id, ...docSnap.data() }]). *)
Definition stored_service (serviceId : string) (st : Store)
    : option ScheduledServiceWithClient :=
  (fun d => {| id := serviceId; doc := d |}) <$> scheduledServices st !! serviceId.

(** The weights of the operations recorded against one pack, summed:
    [operations.reduce((acc, op) => acc + op.weight, 0)] over the
    operations whose [packId] is the pack's. *)
Definition operations_weight (packId : string) (ops : gmap string Operation.t) : Z :=
  map_fold
    (fun _ o acc =>
       if bool_decide (Operation.packId o = packId) then acc + Operation.weight o
       else acc)
    0 ops.

(** Every pack's [usedCredits] is the summed weight of its operations. *)
Definition ledger_balanced (st : Store) : Prop :=
  forall packId p,
    packs st !! packId = Some p ->
    Pack.usedCredits p = operations_weight packId (operations st).

(** An active pack has at least one credit left. *)
Definition active_has_credit (p : Pack.t) : Prop :=
  Pack.isActive p = true -> Pack.usedCredits p < Pack.totalCredits p.

(* ===================================================================== *)
(** ** The day view of the schedule page *)
(* ===================================================================== *)

(** [isSameDay(date1, date2)]. *)
Definition isSameDay (date1 date2 : Z) : bool :=
  bool_decide (JSDate.getDate date1 = JSDate.getDate date2)
  && bool_decide (JSDate.getMonth date1 = JSDate.getMonth date2)
  && bool_decide (JSDate.getFullYear date1 = JSDate.getFullYear date2).

(** [allServices.filter(service => isSameDay(service.scheduledDate.toDate(),
    selectedDate))]. *)
Definition servicesForDate (allServices : list ScheduledServiceWithClient)
    (selectedDate : Z) : list ScheduledServiceWithClient :=
  filter (fun service =>
            isSameDay (ScheduledService.scheduledDate (doc service)) selectedDate = true)
         allServices.

(** [(s.duration || 30) as ServiceDuration]: a missing or zero duration
    counts as 30 minutes. *)
Definition duration_or_30 (service : ScheduledServiceWithClient) : Z :=
  match ScheduledService.duration (doc service) with
  | Some n => if n =? 0 then 30 else n
  | None => 30
  end.

(** [formatTimeSlot(slot)]: the label of a catalog slot, else the text
    itself, else 'Sem horário'. *)
Definition formatTimeSlot (slot : string) : string :=
  match List.find (fun s => bool_decide (TimeSlot.value s = slot)) TIME_SLOTS with
  | Some found => TimeSlot.label found
  | None => if bool_decide (slot = EmptyString) then "Sem horário" else slot
  end.

(** [time.replace(':', 'h')]: the first colon becomes an 'h'. *)
Fixpoint formatTime (time : string) : string :=
  match time with
  | EmptyString => EmptyString
  | String c rest =>
      if bool_decide (c = ":"%char) then String "h"%char rest
      else String c (formatTime rest)
  end.

(** [formatTimeRange(startSlot, duration = 30)], e.g. "07h30–08h30". An
    index outside the catalog reads [undefined], and [?.value || startSlot]
    falls back to the start slot. *)
Definition formatTimeRange (startSlot : string) (duration : Z) : string :=
  let startIndex :=
    findIndex (fun s => bool_decide (TimeSlot.value s = startSlot)) TIME_SLOTS in
  if startIndex =? -1 then formatTimeSlot startSlot
  else
    let slotsNeeded := Math_ceil_div duration 30 in
    let endIndex :=
      Z.min (startIndex + slotsNeeded - 1) (Z.of_nat (length TIME_SLOTS) - 1) in
    let startTime := default EmptyString (split_on "-" startSlot !! 0%nat) in
    let endSlot :=
      match (if endIndex <? 0 then None else TIME_SLOTS !! Z.to_nat endIndex) with
      | Some s =>
          if bool_decide (TimeSlot.value s = EmptyString) then startSlot
          else TimeSlot.value s
      | None => startSlot
      end in
    let endTime := default EmptyString (split_on "-" endSlot !! 1%nat) in
    formatTime startTime +:+ "–" +:+ formatTime endTime.

(** [SlotViewItem]: what the day view shows for a catalog slot. *)
Inductive SlotViewItem :=
  | ViewEmpty (slot : TimeSlot.t)
  | ViewServiceStart (slot : TimeSlot.t) (service : ScheduledServiceWithClient)
      (slotsSpanned : Z)
  | ViewServiceContinuation (slot : TimeSlot.t) (service : ScheduledServiceWithClient).

Definition view_slot (item : SlotViewItem) : TimeSlot.t :=
  match item with
  | ViewEmpty slot => slot
  | ViewServiceStart slot _ _ => slot
  | ViewServiceContinuation slot _ => slot
  end.

#[global] Instance TimeSlot_eq_dec : EqDecision TimeSlot.t.
Proof. solve_decision. Defined.
#[global] Instance ScheduledService_eq_dec : EqDecision ScheduledService.t.
Proof. solve_decision. Defined.
#[global] Instance ScheduledServiceWithClient_eq_dec :
  EqDecision ScheduledServiceWithClient.
Proof. solve_decision. Defined.
#[global] Instance SlotViewItem_eq_dec : EqDecision SlotViewItem.
Proof. solve_decision. Defined.

(** The test of [servicesForDate.find(...)] that looks for a service which
    started earlier and still occupies [slot]. *)
Definition occupies_from_earlier (slot : TimeSlot.t)
    (s : ScheduledServiceWithClient) : bool :=
  if bool_decide (ScheduledService.scheduledTime (doc s) = EmptyString) then false
  else
    let duration := duration_or_30 s in
    let occupiedSlots := getOccupiedSlots (ScheduledService.scheduledTime (doc s)) duration in
    bool_decide (TimeSlot.value slot ∈ occupiedSlots)
    && negb (bool_decide (ScheduledService.scheduledTime (doc s) = TimeSlot.value slot)).

(** The [for (const slot of TIME_SLOTS)] loop that builds [slotsView], from
    the slots still to visit, the set [processedSlots] and the items pushed
    so far. *)
Fixpoint slotsView_loop (slots : list TimeSlot.t)
    (servicesForDate : list ScheduledServiceWithClient)
    (processedSlots : gset string) (slotsView : list SlotViewItem)
    : list SlotViewItem :=
  match slots with
  | [] => slotsView
  | slot :: rest =>
      if bool_decide (TimeSlot.value slot ∈ processedSlots) then
        slotsView_loop rest servicesForDate processedSlots slotsView
      else
        match List.find
                (fun s => bool_decide
                            (ScheduledService.scheduledTime (doc s) = TimeSlot.value slot))
                servicesForDate with
        | Some serviceStartingHere =>
            let duration := duration_or_30 serviceStartingHere in
            let occupiedSlots := getOccupiedSlots (TimeSlot.value slot) duration in
            let slotsSpanned := Z.of_nat (length occupiedSlots) in
            slotsView_loop rest servicesForDate
              (processedSlots ∪ list_to_set occupiedSlots)
              (slotsView ++ [ViewServiceStart slot serviceStartingHere slotsSpanned])
        | None =>
            match List.find (occupies_from_earlier slot) servicesForDate with
            | Some serviceOccupyingSlot =>
                slotsView_loop rest servicesForDate
                  (processedSlots ∪ {[TimeSlot.value slot]})
                  (slotsView ++ [ViewServiceContinuation slot serviceOccupyingSlot])
            | None =>
                slotsView_loop rest servicesForDate processedSlots
                  (slotsView ++ [ViewEmpty slot])
            end
        end
  end.

Definition slotsView (servicesForDate : list ScheduledServiceWithClient)
    : list SlotViewItem :=
  slotsView_loop TIME_SLOTS servicesForDate ∅ [].

(** [servicesWithoutSlot]: the services of the day without a time, or with
    a time that is not a catalog slot. *)
Definition servicesWithoutSlot (servicesForDate : list ScheduledServiceWithClient)
    : list ScheduledServiceWithClient :=
  filter (fun s =>
            bool_decide (ScheduledService.scheduledTime (doc s) = EmptyString)
            || negb (existsb (fun slot =>
                                bool_decide (TimeSlot.value slot
                                             = ScheduledService.scheduledTime (doc s)))
                             TIME_SLOTS) = true)
         servicesForDate.


(** The slot codes a service lies on, and a code no service of the day
    starts at or lies on. *)
Definition service_slots (s : ScheduledServiceWithClient) : list string :=
  getOccupiedSlots (ScheduledService.scheduledTime (doc s)) (duration_or_30 s).

Definition slot_free (servicesForDate : list ScheduledServiceWithClient)
    (code : string) : Prop :=
  forall s, s ∈ servicesForDate ->
    ScheduledService.scheduledTime (doc s) <> code /\ code ∉ service_slots s.

(** What each item of the view says about the services of the day. *)
Definition item_sound (sv : list ScheduledServiceWithClient) (item : SlotViewItem) : Prop :=
  match item with
  | ViewEmpty slot =>
      forall s, s ∈ sv ->
        ScheduledService.scheduledTime (doc s) <> TimeSlot.value slot
        /\ occupies_from_earlier slot s = false
  | ViewServiceStart slot s slotsSpanned =>
      s ∈ sv
      /\ ScheduledService.scheduledTime (doc s) = TimeSlot.value slot
      /\ slotsSpanned = Z.of_nat (length (service_slots s))
  | ViewServiceContinuation slot s =>
      s ∈ sv
      /\ ScheduledService.scheduledTime (doc s) <> EmptyString
      /\ ScheduledService.scheduledTime (doc s) <> TimeSlot.value slot
      /\ TimeSlot.value slot ∈ service_slots s
  end.

(* ===================================================================== *)
(** ** The weekday toggle of the schedule form *)
(* ===================================================================== *)

(** [Array.prototype.sort()] without a comparator orders the elements by
    their string forms, compared character code by character code. Whole
    numbers are written in decimal ([pretty]). *)
Definition default_sort_le (a b : Z) : Prop :=
  String.leb (pretty a) (pretty b) = true.

#[global] Instance default_sort_le_dec a b : Decision (default_sort_le a b).
Proof. unfold default_sort_le. apply _. Defined.

Definition Array_sort_default (l : list Z) : list Z := merge_sort default_sort_le l.

(** [toggleWeekday(day)], as the function applied to the previous
    selection: [prev.includes(day) ? prev.filter(d => d !== day)
    : [...prev, day].sort()]. *)
Definition toggleWeekday (prev : list Z) (day : Z) : list Z :=
  if ScheduleForm.includes prev day
  then filter (fun d => d <> day) prev
  else Array_sort_default (prev ++ [day]).

(* ===================================================================== *)
(** ** Today's services (useSchedule) *)
(* ===================================================================== *)




(* ===================================================================== *)
(** ** Further concrete stores and day lists *)
(* ===================================================================== *)

Module Example.

(** A walk booked without a pack. *)
Definition unlinked_walk (s : ScheduleStatus) : ScheduledService.t :=
  {| ScheduledService.clientId := "client1";
     ScheduledService.packId := None;
     ScheduledService.scheduledDate := Scenario.day1;
     ScheduledService.scheduledTime := "09:00-09:30";
     ScheduledService.duration := Some 30;
     ScheduledService.type := walk;
     ScheduledService.status := s;
     ScheduledService.completedAt := None |}.

(** A walk without a time. *)
Definition untimed_walk : ScheduledService.t :=
  {| ScheduledService.clientId := "client1";
     ScheduledService.packId := None;
     ScheduledService.scheduledDate := Scenario.day1;
     ScheduledService.scheduledTime := "";
     ScheduledService.duration := None;
     ScheduledService.type := walk;
     ScheduledService.status := scheduled;
     ScheduledService.completedAt := None |}.

(** A store whose only booking points at a pack that does not exist. *)
Definition no_pack (b : ScheduledService.t) : Store :=
  {| packs := ∅; operations := ∅; scheduledServices := {[ "svc1" := b ]} |}.

(** Pack(total=8, used=1) with the completed walk that used the credit and
    the Operation of that completion. *)
Definition one_completed : Store :=
  {| packs := {[ "pack1" := Scenario.pack walk_service 8 1 true ]};
     operations := {[ "op1" := Scenario.operation walk ]};
     scheduledServices :=
       {[ "svc1" := Scenario.booking walk completed (Some Scenario.day1) ]} |}.

(** A fresh Pack(total=8, used=0) and a scheduled walk. *)
Definition fresh : Store :=
  Scenario.one_booking (Scenario.pack walk_service 8 0 true)
    (Scenario.booking walk scheduled None).

(** The services of a day: a 60-minute walk at 07:30, a 30-minute walk at
    09:00 and a walk without a time. *)
Definition timed_0730 : ScheduledServiceWithClient :=
  Scenario.snapshot "svc1" (Scenario.booking walk scheduled None).
Definition timed_0900 : ScheduledServiceWithClient :=
  Scenario.snapshot "svc2" (unlinked_walk scheduled).
Definition untimed : ScheduledServiceWithClient :=
  Scenario.snapshot "svc3" untimed_walk.
Definition day : list ScheduledServiceWithClient := [timed_0730; timed_0900; untimed].

End Example.

(* ===================================================================== *)
(** ** Dates in a time zone *)
(* ===================================================================== *)

(** A [Date] object holds a UTC time value, or NaN when it is an Invalid
    Date, and reads and writes it through the time zone of the host:
    [LocalTime(t) = t + LocalTZA(t, true)] for a UTC time value [t] and
    [UTC(t) = t - LocalTZA(t, false)] for a local one. [JSDate] above is the
    calendar on local time values; this module adds the two conversions and
    [TimeClip], following ECMAScript. A [Date] is an [option Z], with [None]
    for the Invalid Date. *)
Module TZDate.

(** The offset of local time from UTC, in milliseconds, at a UTC time value
    and at a local time value. *)
Record TimeZone := {
  LocalTZA_utc : Z -> Z;
  LocalTZA_local : Z -> Z;
}.

Definition LocalTime (tz : TimeZone) (t : Z) : Z := t + LocalTZA_utc tz t.

Definition UTC (tz : TimeZone) (t : Z) : Z := t - LocalTZA_local tz t.

Definition maxTime : Z := 8640000000000000.

(** [TimeClip(time)]: NaN beyond 100,000,000 days from the epoch. *)
Definition TimeClip (time : Z) : option Z :=
  if Z.abs time <=? maxTime then Some time else None.

(** [new Date(year, monthIndex, day, hours, minutes, seconds)]. *)
Definition make (tz : TimeZone) (year monthIndex day hours minutes seconds : Z)
    : option Z :=
  TimeClip (UTC tz (JSDate.make year monthIndex day hours minutes seconds)).

(** The getters of a valid date read its local time. *)
Definition getFullYear (tz : TimeZone) (t : Z) : Z := JSDate.getFullYear (LocalTime tz t).
Definition getMonth (tz : TimeZone) (t : Z) : Z := JSDate.getMonth (LocalTime tz t).
Definition getDate (tz : TimeZone) (t : Z) : Z := JSDate.getDate (LocalTime tz t).
Definition getDay (tz : TimeZone) (t : Z) : Z := JSDate.getDay (LocalTime tz t).

(** [d.setDate(dt)] on a valid date: the day of month is replaced in local
    time, and the result is converted back and clipped. *)
Definition setDate (tz : TimeZone) (t dt : Z) : option Z :=
  TimeClip (UTC tz (JSDate.setDate (LocalTime tz t) dt)).

(** A zone that keeps one offset all year, such as America/Sao_Paulo
    ([fixed (-3 * msPerHour)]) since 2019. *)
Definition fixed (offset : Z) : TimeZone :=
  {| LocalTZA_utc := fun _ => offset; LocalTZA_local := fun _ => offset |}.

(** A zone whose offset is [before] until the UTC time [change] and [after]
    from then on. A local time that the change skips or repeats is read
    with the offset before the change. *)
Definition changing (before after change : Z) : TimeZone :=
  {| LocalTZA_utc := fun t => if t <? change then before else after;
     LocalTZA_local := fun t =>
       if t <? change + Z.max before after then before else after |}.

(** Offsets stay within a day of UTC, and no two offsets of the zone are a
    day or more apart. *)
Definition steady (tz : TimeZone) : Prop :=
  (forall t, Z.abs (LocalTZA_local tz t) <= JSDate.msPerDay)
  /\ (forall t1 t2, LocalTZA_local tz t1 - LocalTZA_local tz t2 < JSDate.msPerDay).

(** The local time [t] exists in the zone and reads back as itself. *)
Definition reads_back (tz : TimeZone) (t : Z) : Prop :=
  LocalTime tz (UTC tz t) = t.

End TZDate.

(** The schedule page and the schedule form, run in a time zone. *)
Module Zoned.

(** [getDateRange(baseDate)] for a valid [baseDate]: the day before and the
    day after, as [(prev, next)]. *)
Definition getDateRange (tz : TZDate.TimeZone) (baseDate : Z) : option Z * option Z :=
  let prev := TZDate.setDate tz baseDate (TZDate.getDate tz baseDate - 1) in
  let next := TZDate.setDate tz baseDate (TZDate.getDate tz baseDate + 1) in
  (prev, next).

(** The [while (currentDate <= endDate)] loop of generateRecurringDates, for
    at most [fuel] rounds. A comparison with an Invalid Date is false. The
    dates pushed may be invalid. *)
Fixpoint generateRecurringDates_loop (tz : TZDate.TimeZone) (fuel : nat)
    (currentDate endDate : option Z) (weekdays : list Z) (dates : list (option Z))
    : list (option Z) :=
  match fuel with
  | O => dates
  | S fuel' =>
      match currentDate, endDate with
      | Some current, Some end_ =>
          if current <=? end_ then
            let dates :=
              if ScheduleForm.includes weekdays (TZDate.getDay tz current)
              then dates ++ [TZDate.make tz (TZDate.getFullYear tz current)
                               (TZDate.getMonth tz current)
                               (TZDate.getDate tz current) 12 0 0]
              else dates in
            generateRecurringDates_loop tz fuel'
              (TZDate.setDate tz current (TZDate.getDate tz current + 1))
              endDate weekdays dates
          else dates
      | _, _ => dates
      end
  end.

(** [generateRecurringDates], the loop run for at most [fuel] rounds. A
    string that does not yield three numbers gives an Invalid Date. *)
Definition generateRecurringDates (tz : TZDate.TimeZone) (fuel : nat)
    (s : ScheduleForm.State) : list (option Z) :=
  let startDate :=
    match parse_ymd (ScheduleForm.scheduledDate (ScheduleForm.formData s)) with
    | Some (startYear, startMonth, startDay) =>
        TZDate.make tz startYear (startMonth - 1) startDay 0 0 0
    | None => None
    end in
  let endDate :=
    match parse_ymd (ScheduleForm.recurrenceEndDate s) with
    | Some (endYear, endMonth, endDay) =>
        TZDate.make tz endYear (endMonth - 1) endDay 0 0 0
    | None => None
    end in
  let currentDate := startDate in
  generateRecurringDates_loop tz fuel currentDate endDate
    (ScheduleForm.selectedWeekdays s) [].

(** America/Sao_Paulo as it is today, three hours behind UTC all year. *)
Definition sao_paulo : TZDate.TimeZone := TZDate.fixed (-3 * JSDate.msPerHour).

(** America/Sao_Paulo around 4 November 2018, when the clocks went from
    00:00 to 01:00 (03:00 UTC). *)
Definition sao_paulo_2018 : TZDate.TimeZone :=
  TZDate.changing (-3 * JSDate.msPerHour) (-2 * JSDate.msPerHour) 1541300400000.

(** The recurring request for every day from 2018-11-01 to 2018-11-07. *)
Definition nov_2018_every_day : ScheduleForm.State :=
  {| ScheduleForm.formData :=
       {| ScheduleForm.clientId := "client1";
          ScheduleForm.scheduledDate := "2018-11-01";
          ScheduleForm.scheduledTime := "09:00-09:30";
          ScheduleForm.duration := 30;
          ScheduleForm.type := walk;
          ScheduleForm.notes := "";
          ScheduleForm.isExtra := false |};
     ScheduleForm.isRecurring := true;
     ScheduleForm.selectedWeekdays := [0; 1; 2; 3; 4; 5; 6];
     ScheduleForm.recurrenceEndDate := "2018-11-07";
     ScheduleForm.activePacks := [] |}.

End Zoned.

(* ===================================================================== *)
(** ** What the transactions compute *)
(* ===================================================================== *)

Section Ledger.

Implicit Types (st : Store) (service : ScheduledServiceWithClient).
Implicit Types (p : Pack.t) (o : Operation.t) (d : ScheduledService.t).

Lemma OPERATION_WEIGHTS_pos t : 1 <= OPERATION_WEIGHTS t <= 2.
Proof. destruct t; simpl; lia. Qed.

(** Deleting a list of keys one after the other. *)
Lemma tx_forEach_delete (l : list string) st :
  tx_forEach l tx_delete_operation st =
  inr (tt, {| packs := packs st;
              operations := foldl (fun m k => delete k m) (operations st) l;
              scheduledServices := scheduledServices st |}).
Proof.
  revert st. induction l as [|k l IH]; intros st.
  - by destruct st.
  - simpl. unfold tx_bind at 1. simpl. by rewrite IH.
Qed.

Lemma lookup_foldl_delete (l : list string) (m : gmap string Operation.t) k :
  foldl (fun m k => delete k m) m l !! k =
  if decide (k ∈ l) then None else m !! k.
Proof.
  revert m. induction l as [|k' l IH]; intros m.
  - destruct (decide (k ∈ [])) as [Hin|_]; [|done].
    by apply not_elem_of_nil in Hin.
  - cbn [foldl]. rewrite IH.
    destruct (decide (k ∈ l)) as [Hin|Hnin];
      destruct (decide (k ∈ k' :: l)) as [Hin'|Hnin']; try done.
    + exfalso. apply Hnin'. apply elem_of_cons; by right.
    + apply elem_of_cons in Hin' as [->|?]; [|done].
      apply lookup_delete_eq.
    + apply lookup_delete_ne. intros ->. apply Hnin', elem_of_cons; by left.
Qed.

(** The query-then-delete loop of revertServiceStatus removes exactly the
    matching operations, all of them. *)
Lemma delete_matching_operations (m : gmap string Operation.t) pc cc dd :
  foldl (fun m k => delete k m) m
    (map_to_list (filter (fun kv => operation_matches pc cc dd kv.2 = true) m)).*1
  = filter (fun kv => operation_matches pc cc dd kv.2 = false) m.
Proof.
  apply map_eq; intros k. rewrite lookup_foldl_delete.
  destruct (m !! k) as [o|] eqn:Hk.
  - destruct (operation_matches pc cc dd o) eqn:Hm.
    + rewrite decide_True.
      * symmetry. apply map_lookup_filter_None. right. intros o' Ho'.
        simpl. rewrite Hk in Ho'. injection Ho' as <-. by rewrite Hm.
      * apply list_elem_of_fmap. exists (k, o). split; [done|].
        apply elem_of_map_to_list. by apply map_lookup_filter_Some.
    + rewrite decide_False.
      * symmetry. by apply map_lookup_filter_Some.
      * intros [[k' o'] [-> Hin]]%list_elem_of_fmap.
        apply elem_of_map_to_list, map_lookup_filter_Some in Hin as [Ho' Hm'].
        simpl in *. rewrite Hk in Ho'. injection Ho' as <-. congruence.
  - case_decide; symmetry; apply map_lookup_filter_None; by left.
Qed.

(** completeService on a pack-linked booking, capacity sufficient. *)
Lemma completeService_linked_ok service now operationRef st packId p d :
  truthy_packId (ScheduledService.packId (doc service)) = Some packId ->
  packs st !! packId = Some p ->
  scheduledServices st !! id service = Some d ->
  Pack.usedCredits p + OPERATION_WEIGHTS (ScheduledService.type (doc service))
    <= Pack.totalCredits p ->
  completeService service now operationRef st =
  (Ok,
   {| packs :=
        <[packId :=
            debit_fields
              (Pack.usedCredits p + OPERATION_WEIGHTS (ScheduledService.type (doc service)))
              p p]> (packs st);
      operations :=
        <[operationRef :=
            {| Operation.packId := packId;
               Operation.clientId := ScheduledService.clientId (doc service);
               Operation.date := ScheduledService.scheduledDate (doc service);
               Operation.type := ScheduledService.type (doc service);
               Operation.weight := OPERATION_WEIGHTS (ScheduledService.type (doc service)) |}]>
          (operations st);
      scheduledServices :=
        <[id service := status_completedAt_fields completed (Some now) d]>
          (scheduledServices st) |}).
Proof.
  intros Ht Hp Hd Hle. unfold completeService. rewrite Ht.
  unfold runTransaction, tx_bind, tx_get_pack. rewrite Hp.
  destruct (Z.gtb_spec
              (Pack.usedCredits p + OPERATION_WEIGHTS (ScheduledService.type (doc service)))
              (Pack.totalCredits p)) as [Hgt|_]; [lia|].
  unfold tx_update_pack, tx_set_operation, tx_update_service. simpl.
  rewrite Hp. simpl. by rewrite Hd.
Qed.

(** completeService on a pack-linked booking, capacity exceeded. *)
Lemma completeService_linked_insufficient service now operationRef st packId p :
  truthy_packId (ScheduledService.packId (doc service)) = Some packId ->
  packs st !! packId = Some p ->
  Pack.totalCredits p
    < Pack.usedCredits p + OPERATION_WEIGHTS (ScheduledService.type (doc service)) ->
  completeService service now operationRef st = (Failed InsufficientCredits, st).
Proof.
  intros Ht Hp Hlt. unfold completeService. rewrite Ht.
  unfold runTransaction, tx_bind, tx_get_pack. rewrite Hp.
  destruct (Z.gtb_spec
              (Pack.usedCredits p + OPERATION_WEIGHTS (ScheduledService.type (doc service)))
              (Pack.totalCredits p)) as [_|Hle]; [done|lia].
Qed.

(** revertServiceStatus on a completed pack-linked booking. *)
Lemma revertServiceStatus_linked_ok service st packId p d :
  ScheduledService.status (doc service) = completed ->
  truthy_packId (ScheduledService.packId (doc service)) = Some packId ->
  packs st !! packId = Some p ->
  scheduledServices st !! id service = Some d ->
  revertServiceStatus service st =
  (Ok,
   {| packs :=
        <[packId :=
            credit_fields
              (Z.max 0 (Pack.usedCredits p
                        - OPERATION_WEIGHTS (ScheduledService.type (doc service))))
              p]> (packs st);
      operations :=
        filter (fun kv =>
                  operation_matches packId
                    (ScheduledService.clientId (doc service))
                    (ScheduledService.scheduledDate (doc service)) kv.2 = false)
               (operations st);
      scheduledServices :=
        <[id service := status_completedAt_fields scheduled None d]>
          (scheduledServices st) |}).
Proof.
  intros Hs Ht Hp Hd. unfold revertServiceStatus.
  rewrite Hs, bool_decide_eq_true_2 by done. rewrite Ht.
  unfold runTransaction, tx_bind at 1 2, tx_get_pack. rewrite Hp.
  unfold tx_query_operations. unfold tx_bind. rewrite tx_forEach_delete.
  unfold tx_update_pack, tx_update_service. simpl.
  rewrite Hp. simpl. rewrite Hd. by rewrite delete_matching_operations.
Qed.

(** Every hook call that does not go through a transaction on a pack leaves
    the packs and the operations alone. *)
Lemma updateScheduledService_ledger serviceId f st :
  packs (updateScheduledService serviceId f st).2 = packs st
  /\ operations (updateScheduledService serviceId f st).2 = operations st.
Proof. unfold updateScheduledService. by destruct (_ !! _). Qed.

End Ledger.

(* ===================================================================== *)
(** ** How each ledger operation can change the packs *)
(* ===================================================================== *)

(** Name the result of a hook call and keep its defining equation, so that
    the call is evaluated once, in the equation. *)
Ltac name_result r H :=
  intros r; pose proof (eq_refl r) as H; unfold r at 2 in H; clearbody r.

Section LedgerPacks.

Implicit Types (st : Store) (service : ScheduledServiceWithClient) (p : Pack.t).

Lemma store_inv_same_packs st st' :
  store_inv st -> packs st' = packs st -> store_inv st'.
Proof. intros Hinv Heq k p. rewrite Heq. apply Hinv. Qed.

Lemma store_inv_insert st st' k p' :
  store_inv st -> pack_inv p' ->
  packs st' = <[k := p']> (packs st) -> store_inv st'.
Proof.
  intros Hinv Hp' Heq k' q. rewrite Heq, lookup_insert.
  case_decide; [intros [= <-]; exact Hp' | apply Hinv].
Qed.

(** A debit either leaves the packs as they are or rewrites one pack, and
    then only after the capacity check has passed. *)
Lemma completeService_packs service now operationRef st :
  let r := completeService service now operationRef st in
  packs r.2 = packs st
  \/ exists packId p,
       packs st !! packId = Some p
       /\ Pack.usedCredits p + OPERATION_WEIGHTS (ScheduledService.type (doc service))
            <= Pack.totalCredits p
       /\ packs r.2 =
          <[packId :=
              debit_fields
                (Pack.usedCredits p
                 + OPERATION_WEIGHTS (ScheduledService.type (doc service))) p p]>
            (packs st).
Proof.
  name_result r Hr. unfold completeService in Hr.
  destruct (truthy_packId _) as [packId|];
    [|left; subst r; apply updateScheduledService_ledger].
  unfold runTransaction, tx_bind, tx_get_pack, tx_update_pack, tx_set_operation,
    tx_update_service, throw in Hr.
  destruct (packs st !! packId) as [p|] eqn:Hp; [|by subst r; left].
  cbn zeta in Hr.
  destruct (Z.gtb_spec
              (Pack.usedCredits p + OPERATION_WEIGHTS (ScheduledService.type (doc service)))
              (Pack.totalCredits p)) as [Hgt|Hle]; [by subst r; left|].
  rewrite Hp in Hr. simpl in Hr.
  destruct (scheduledServices st !! id service); [|by subst r; left].
  subst r. right. by exists packId, p.
Qed.

Lemma registerOperation_packs packId clientId t now operationRef st :
  let r := registerOperation packId clientId t now operationRef st in
  packs r.2 = packs st
  \/ exists p,
       packs st !! packId = Some p
       /\ Pack.usedCredits p + OPERATION_WEIGHTS t <= Pack.totalCredits p
       /\ packs r.2 =
          <[packId := debit_fields (Pack.usedCredits p + OPERATION_WEIGHTS t) p p]>
            (packs st).
Proof.
  name_result r Hr. unfold registerOperation in Hr.
  unfold runTransaction, tx_bind, tx_get_pack, tx_update_pack, tx_set_operation, throw
    in Hr.
  destruct (packs st !! packId) as [p|] eqn:Hp; [|by subst r; left].
  cbn zeta in Hr.
  destruct (Z.gtb_spec (Pack.usedCredits p + OPERATION_WEIGHTS t) (Pack.totalCredits p))
    as [Hgt|Hle]; [by subst r; left|].
  rewrite Hp in Hr. simpl in Hr. subst r. right. by exists p.
Qed.

(** A credit either leaves the packs as they are or rewrites one pack. *)
Lemma revertServiceStatus_packs service st :
  let r := revertServiceStatus service st in
  packs r.2 = packs st
  \/ exists packId p,
       packs st !! packId = Some p
       /\ packs r.2 =
          <[packId :=
              credit_fields
                (Z.max 0 (Pack.usedCredits p
                          - OPERATION_WEIGHTS (ScheduledService.type (doc service)))) p]>
            (packs st).
Proof.
  name_result r Hr. unfold revertServiceStatus in Hr.
  destruct (if bool_decide _ then _ else _) as [packId|];
    [|left; subst r; apply updateScheduledService_ledger].
  unfold runTransaction, tx_bind at 1, tx_get_pack in Hr. cbn beta iota in Hr.
  destruct (packs st !! packId) as [p|] eqn:Hp; [|by subst r; left].
  cbn zeta in Hr. unfold tx_bind at 1, tx_query_operations in Hr.
  cbn beta iota in Hr. unfold tx_bind in Hr. rewrite tx_forEach_delete in Hr.
  unfold tx_update_pack, tx_update_service in Hr. simpl in Hr.
  rewrite Hp in Hr. simpl in Hr.
  destruct (scheduledServices st !! id service); [|by subst r; left].
  subst r. right. by exists packId, p.
Qed.

End LedgerPacks.

(* ===================================================================== *)
(** ** The ledger: invariant, debit, credit *)
(* ===================================================================== *)

Section LedgerClaims.

Implicit Types (st : Store) (service : ScheduledServiceWithClient).
Implicit Types (p : Pack.t) (d : ScheduledService.t).

(** C1. Every Pack satisfying [0 <= usedCredits <= totalCredits] still
    satisfies it after any single ledger operation (the debit of a
    completion, the credit of a reversal, a direct registration), whatever
    the operation's outcome: a debit never raises [usedCredits] above
    [totalCredits] and a credit never lowers it below 0. *)
Theorem ledger_op_keeps_pack_invariant (op : LedgerOp) st (k : string) p p' :
  packs st !! k = Some p ->
  pack_inv p ->
  packs (run_ledger_op op st).2 !! k = Some p' ->
  pack_inv p'.
Proof.
  intros Hk Hinv Hk'.
  assert (Hdebit : forall w q,
            1 <= w <= 2 -> packs st !! k = Some q ->
            Pack.usedCredits q + w <= Pack.totalCredits q ->
            pack_inv (debit_fields (Pack.usedCredits q + w) q q)).
  { intros w q Hw Hq Hle. rewrite Hk in Hq. injection Hq as <-.
    unfold pack_inv in *. simpl. lia. }
  assert (Hcredit : forall w q,
            1 <= w <= 2 -> packs st !! k = Some q ->
            pack_inv (credit_fields (Z.max 0 (Pack.usedCredits q - w)) q)).
  { intros w q Hw Hq. rewrite Hk in Hq. injection Hq as <-.
    unfold pack_inv in *. simpl. lia. }
  destruct op as [service now operationRef|service|pid cid t now operationRef]; simpl in Hk'.
  - destruct (completeService_packs service now operationRef st)
      as [Hsame|(pid & q & Hq & Hle & Hpacks)].
    + rewrite Hsame, Hk in Hk'. by injection Hk' as <-.
    + rewrite Hpacks, lookup_insert in Hk'. case_decide as Heq.
      * subst pid. injection Hk' as <-.
        apply Hdebit; [apply OPERATION_WEIGHTS_pos|done..].
      * rewrite Hk in Hk'. by injection Hk' as <-.
  - destruct (revertServiceStatus_packs service st)
      as [Hsame|(pid & q & Hq & Hpacks)].
    + rewrite Hsame, Hk in Hk'. by injection Hk' as <-.
    + rewrite Hpacks, lookup_insert in Hk'. case_decide as Heq.
      * subst pid. injection Hk' as <-.
        apply Hcredit; [apply OPERATION_WEIGHTS_pos|done].
      * rewrite Hk in Hk'. by injection Hk' as <-.
  - destruct (registerOperation_packs pid cid t now operationRef st)
      as [Hsame|(q & Hq & Hle & Hpacks)].
    + rewrite Hsame, Hk in Hk'. by injection Hk' as <-.
    + rewrite Hpacks, lookup_insert in Hk'. case_decide as Heq.
      * subst pid. injection Hk' as <-.
        apply Hdebit; [apply OPERATION_WEIGHTS_pos|done..].
      * rewrite Hk in Hk'. by injection Hk' as <-.
Qed.

(** C2. When [totalCredits - usedCredits < weight(type)], completing a
    pack-linked scheduled booking fails with InsufficientCredits and the store
    is exactly as before: the Pack is unchanged, no Operation is created and
    the booking is still 'scheduled' with [completedAt] unset. The direct
    registration of an operation of the same type fails the same way. *)
Theorem complete_insufficient_credits service now operationRef st packId p clientId :
  truthy_packId (ScheduledService.packId (doc service)) = Some packId ->
  packs st !! packId = Some p ->
  scheduledServices st !! id service = Some (doc service) ->
  ScheduledService.status (doc service) = scheduled ->
  ScheduledService.completedAt (doc service) = None ->
  Pack.totalCredits p - Pack.usedCredits p
    < OPERATION_WEIGHTS (ScheduledService.type (doc service)) ->
  let r := completeService service now operationRef st in
  r = (Failed InsufficientCredits, st)
  /\ packs r.2 !! packId = Some p
  /\ operations r.2 = operations st
  /\ (exists d, scheduledServices r.2 !! id service = Some d
                /\ ScheduledService.status d = scheduled
                /\ ScheduledService.completedAt d = None)
  /\ registerOperation packId clientId (ScheduledService.type (doc service))
       now operationRef st = (Failed InsufficientCredits, st).
Proof.
  intros Ht Hp Hd Hs Hc Hlt r. subst r.
  rewrite (completeService_linked_insufficient _ _ _ _ _ _ Ht Hp) by lia.
  simpl. repeat split; try done.
  - by exists (doc service).
  - unfold registerOperation, runTransaction, tx_bind, tx_get_pack. rewrite Hp.
    cbn zeta.
    destruct (Z.gtb_spec
                (Pack.usedCredits p + OPERATION_WEIGHTS (ScheduledService.type (doc service)))
                (Pack.totalCredits p)) as [_|Hle]; [done|lia].
Qed.

(** C3. For a pack-linked booking in status 'scheduled' whose Pack exists
    and has [usedCredits + weight(type) <= totalCredits], complete succeeds;
    afterwards the Pack's [usedCredits] has grown by exactly [weight(type)],
    its [isActive] has been written to false exactly when the new
    [usedCredits >= totalCredits] (and is otherwise as before), exactly one
    Operation has been added, carrying the booking's packId, clientId and
    weight(type), and the booking is 'completed' with [completedAt] set. *)
Theorem complete_debits_pack service now operationRef st packId p :
  truthy_packId (ScheduledService.packId (doc service)) = Some packId ->
  packs st !! packId = Some p ->
  scheduledServices st !! id service = Some (doc service) ->
  ScheduledService.status (doc service) = scheduled ->
  operations st !! operationRef = None ->
  Pack.usedCredits p + OPERATION_WEIGHTS (ScheduledService.type (doc service))
    <= Pack.totalCredits p ->
  let weight := OPERATION_WEIGHTS (ScheduledService.type (doc service)) in
  let r := completeService service now operationRef st in
  r.1 = Ok
  /\ (exists p',
        packs r.2 !! packId = Some p'
        /\ Pack.usedCredits p' = Pack.usedCredits p + weight
        /\ Pack.totalCredits p' = Pack.totalCredits p
        /\ Pack.isActive p' =
             (if Pack.usedCredits p' >=? Pack.totalCredits p' then false
              else Pack.isActive p))
  /\ (forall k, k <> packId -> packs r.2 !! k = packs st !! k)
  /\ (exists o,
        operations r.2 = <[operationRef := o]> (operations st)
        /\ size (operations r.2) = S (size (operations st))
        /\ Operation.packId o = packId
        /\ Operation.clientId o = ScheduledService.clientId (doc service)
        /\ Operation.weight o = weight)
  /\ (exists d,
        scheduledServices r.2 !! id service = Some d
        /\ ScheduledService.status d = completed
        /\ ScheduledService.completedAt d = Some now).
Proof.
  intros Ht Hp Hd Hs Hfresh Hle weight r. subst r weight.
  rewrite (completeService_linked_ok _ _ _ _ _ _ _ Ht Hp Hd Hle). simpl.
  split; [done|]. split; [|split; [|split]].
  - eexists. split; [apply lookup_insert_eq|]. by simpl.
  - intros k Hk. by apply lookup_insert_ne.
  - eexists. split; [done|]. split; [by apply map_size_insert_None|]. by simpl.
  - eexists. split; [apply lookup_insert_eq|]. by simpl.
Qed.

(** C4. Round trip: for a pack-linked booking in status 'scheduled' whose
    debit succeeds, complete followed by revert (of the booking as it then
    stands in the store) restores the Pack's [usedCredits] and the booking's
    status; [completedAt] is cleared. The Pack is one of the data model, with
    [0 <= usedCredits]. *)
Theorem complete_then_revert_roundtrip service now operationRef st packId p :
  truthy_packId (ScheduledService.packId (doc service)) = Some packId ->
  packs st !! packId = Some p ->
  0 <= Pack.usedCredits p ->
  scheduledServices st !! id service = Some (doc service) ->
  ScheduledService.status (doc service) = scheduled ->
  (completeService service now operationRef st).1 = Ok ->
  let st1 := (completeService service now operationRef st).2 in
  exists d1,
    scheduledServices st1 !! id service = Some d1
    /\ ScheduledService.status d1 = completed
    /\ let r2 := revertServiceStatus {| id := id service; doc := d1 |} st1 in
       r2.1 = Ok
       /\ (exists p2,
             packs r2.2 !! packId = Some p2
             /\ Pack.usedCredits p2 = Pack.usedCredits p
             /\ Pack.totalCredits p2 = Pack.totalCredits p)
       /\ (exists d2,
             scheduledServices r2.2 !! id service = Some d2
             /\ ScheduledService.status d2 = ScheduledService.status (doc service)
             /\ ScheduledService.completedAt d2 = None).
Proof.
  intros Ht Hp Hused Hd Hs Hok st1. subst st1.
  destruct (Z_le_gt_dec
              (Pack.usedCredits p + OPERATION_WEIGHTS (ScheduledService.type (doc service)))
              (Pack.totalCredits p)) as [Hle|Hgt].
  2: { rewrite (completeService_linked_insufficient _ _ _ _ _ _ Ht Hp) in Hok by lia.
       discriminate Hok. }
  rewrite (completeService_linked_ok _ _ _ _ _ _ _ Ht Hp Hd Hle). simpl.
  eexists. split; [apply lookup_insert_eq|]. split; [done|].
  set (d1 := status_completedAt_fields completed (Some now) (doc service)).
  set (st1 := Build_Store _ _ _).
  assert (Hrev := revertServiceStatus_linked_ok {| id := id service; doc := d1 |} st1
                    packId _ d1 eq_refl Ht (lookup_insert_eq _ _ _) (lookup_insert_eq _ _ _)).
  simpl in Hrev. cbn zeta. rewrite Hrev. simpl.
  split; [done|]. split.
  - eexists. split; [apply lookup_insert_eq|]. simpl. split; [lia|done].
  - eexists. split; [apply lookup_insert_eq|]. simpl. by rewrite Hs.
Qed.

(** C5. For a completed pack-linked booking whose Pack exists, revert writes
    [usedCredits = max(0, usedCredits - weight(type))], forces [isActive] to
    true and deletes the Operations matching the booking's
    (packId, clientId, scheduledDate); when none matches, the deletion is a
    silent no-op and the Pack's balance is restored all the same. *)
Theorem revert_credits_pack service st packId p :
  ScheduledService.status (doc service) = completed ->
  truthy_packId (ScheduledService.packId (doc service)) = Some packId ->
  packs st !! packId = Some p ->
  scheduledServices st !! id service = Some (doc service) ->
  let weight := OPERATION_WEIGHTS (ScheduledService.type (doc service)) in
  let matches := operation_matches packId
                   (ScheduledService.clientId (doc service))
                   (ScheduledService.scheduledDate (doc service)) in
  let r := revertServiceStatus service st in
  r.1 = Ok
  /\ (exists p',
        packs r.2 !! packId = Some p'
        /\ Pack.usedCredits p' = Z.max 0 (Pack.usedCredits p - weight)
        /\ Pack.totalCredits p' = Pack.totalCredits p
        /\ Pack.isActive p' = true)
  /\ (forall k o, operations r.2 !! k = Some o <->
                  operations st !! k = Some o /\ matches o = false)
  /\ ((forall k o, operations st !! k = Some o -> matches o = false) ->
      operations r.2 = operations st)
  /\ (exists d,
        scheduledServices r.2 !! id service = Some d
        /\ ScheduledService.status d = scheduled
        /\ ScheduledService.completedAt d = None).
Proof.
  intros Hs Ht Hp Hd weight matches r. subst r weight matches.
  rewrite (revertServiceStatus_linked_ok _ _ _ _ _ Hs Ht Hp Hd). simpl.
  split; [done|]. split; [|split; [|split]].
  - eexists. split; [apply lookup_insert_eq|]. by simpl.
  - intros k o. apply map_lookup_filter_Some.
  - intros Hnone. apply map_filter_id. intros k o Ho. simpl. by eapply Hnone.
  - eexists. split; [apply lookup_insert_eq|]. by simpl.
Qed.

End LedgerClaims.

Section LedgerDesign.

Implicit Types (st : Store) (service : ScheduledServiceWithClient).
Implicit Types (p : Pack.t) (d : ScheduledService.t).

(** C6, as stated, fails: a sitter pack, created with the PackForm's
    capacity 9999, goes through the capacity check like any other. With
    9999 credits used, completing a booking fails with InsufficientCredits;
    with 9998 used, completing a booking of weight 1 deactivates the pack. *)
Lemma sitter_pack_is_capacity_checked :
  Scenario.sitter_total = 9999
  /\ (completeService (Scenario.snapshot "svc1" (Scenario.booking partial scheduled None))
        0 "op1" Scenario.sitter_full).1 = Failed InsufficientCredits
  /\ packs (completeService
              (Scenario.snapshot "svc1" (Scenario.booking partial scheduled None))
              0 "op1" Scenario.sitter_last).2 !! "pack1"
     = Some (Scenario.pack sitter 9999 9999 false).
Proof. vm_compute. by repeat split. Qed.

(** C6, amended. A sitter pack is written with capacity 9999 and its debit
    is checked against that capacity like any pack's: completion fails with
    InsufficientCredits exactly when [usedCredits + weight > totalCredits];
    while [usedCredits + weight < totalCredits] it succeeds and leaves
    [isActive] as it was. *)
Theorem sitter_debit_checked_against_capacity service now operationRef st packId p :
  truthy_packId (ScheduledService.packId (doc service)) = Some packId ->
  packs st !! packId = Some p ->
  Pack.serviceType p = sitter ->
  scheduledServices st !! id service = Some (doc service) ->
  let weight := OPERATION_WEIGHTS (ScheduledService.type (doc service)) in
  let r := completeService service now operationRef st in
  (forall n, PackForm_totalCredits sitter n = 9999)
  /\ (r.1 = Failed InsufficientCredits
      <-> Pack.totalCredits p < Pack.usedCredits p + weight)
  /\ (Pack.usedCredits p + weight < Pack.totalCredits p ->
      r.1 = Ok
      /\ exists p', packs r.2 !! packId = Some p'
                    /\ Pack.usedCredits p' = Pack.usedCredits p + weight
                    /\ Pack.isActive p' = Pack.isActive p).
Proof.
  intros Ht Hp Hsit Hd weight r. subst r weight.
  split; [done|].
  destruct (Z_le_gt_dec
              (Pack.usedCredits p + OPERATION_WEIGHTS (ScheduledService.type (doc service)))
              (Pack.totalCredits p)) as [Hle|Hgt].
  - rewrite (completeService_linked_ok _ _ _ _ _ _ _ Ht Hp Hd Hle). simpl.
    split; [split; [done|lia]|].
    intros Hlt. split; [done|].
    eexists. split; [apply lookup_insert_eq|]. simpl. split; [done|].
    destruct (Z.geb_spec
                (Pack.usedCredits p + OPERATION_WEIGHTS (ScheduledService.type (doc service)))
                (Pack.totalCredits p)); [lia|done].
  - rewrite (completeService_linked_insufficient _ _ _ _ _ _ Ht Hp) by lia. simpl.
    split; [split; [lia|done]|lia].
Qed.

(** C7, as stated, fails: reverting a cancelled booking is not rejected.
    Cancelling the scheduled walk of the scenario and then reverting it
    succeeds and leaves the booking 'scheduled'. *)
Lemma revert_of_cancelled_succeeds :
  let st1 := (cancelService "svc1" Scenario.walk_8_7).2 in
  scheduledServices st1 !! "svc1" = Some (Scenario.booking walk cancelled None)
  /\ let r := revertServiceStatus
                (Scenario.snapshot "svc1" (Scenario.booking walk cancelled None)) st1 in
     r.1 = Ok
     /\ scheduledServices r.2 !! "svc1" = Some (Scenario.booking walk scheduled None).
Proof. vm_compute. by repeat split. Qed.

(** C7, amended. revertServiceStatus does not look for an invalid
    transition: on a booking in status 'cancelled' it succeeds as a pure
    status flip, leaving the booking 'scheduled' with [completedAt] cleared
    and the packs and operations untouched. *)
Theorem revert_of_cancelled_flips_to_scheduled service st :
  ScheduledService.status (doc service) = cancelled ->
  scheduledServices st !! id service = Some (doc service) ->
  let r := revertServiceStatus service st in
  r.1 = Ok
  /\ packs r.2 = packs st
  /\ operations r.2 = operations st
  /\ scheduledServices r.2 =
       <[id service := status_completedAt_fields scheduled None (doc service)]>
         (scheduledServices st)
  /\ (exists d, scheduledServices r.2 !! id service = Some d
                /\ ScheduledService.status d = scheduled
                /\ ScheduledService.completedAt d = None).
Proof.
  intros Hs Hd r. subst r. unfold revertServiceStatus.
  rewrite Hs, bool_decide_eq_false_2 by done.
  unfold updateScheduledService. rewrite Hd. simpl.
  repeat split; try done.
  eexists. split; [apply lookup_insert_eq|]. by simpl.
Qed.

(** C10. Reverting a completed pack-linked booking deletes every Operation
    whose (packId, clientId, date) equals the booking's
    (packId, clientId, scheduledDate) and keeps every other one, while the
    Pack's [usedCredits] goes down by that one booking's weight only. So a
    second completed booking [other] of the same pack, client and scheduled
    date stays 'completed' but loses its Operation [otherRef] too. *)
Theorem revert_deletes_every_matching_operation
    service st packId p (otherId otherRef : string) other o :
  ScheduledService.status (doc service) = completed ->
  truthy_packId (ScheduledService.packId (doc service)) = Some packId ->
  packs st !! packId = Some p ->
  scheduledServices st !! id service = Some (doc service) ->
  (* a second completed booking of the same pack, client and date ... *)
  otherId <> id service ->
  scheduledServices st !! otherId = Some other ->
  ScheduledService.status other = completed ->
  truthy_packId (ScheduledService.packId other) = Some packId ->
  ScheduledService.clientId other = ScheduledService.clientId (doc service) ->
  ScheduledService.scheduledDate other = ScheduledService.scheduledDate (doc service) ->
  (* ... and the Operation its completion created *)
  operations st !! otherRef = Some o ->
  Operation.packId o = packId ->
  Operation.clientId o = ScheduledService.clientId other ->
  Operation.date o = ScheduledService.scheduledDate other ->
  let r := revertServiceStatus service st in
  r.1 = Ok
  /\ (forall k o', operations st !! k = Some o' ->
        Operation.packId o' = packId ->
        Operation.clientId o' = ScheduledService.clientId (doc service) ->
        Operation.date o' = ScheduledService.scheduledDate (doc service) ->
        operations r.2 !! k = None)
  /\ operations r.2 !! otherRef = None
  /\ scheduledServices r.2 !! otherId = Some other
  /\ (exists p', packs r.2 !! packId = Some p'
                 /\ Pack.usedCredits p' =
                    Z.max 0 (Pack.usedCredits p
                             - OPERATION_WEIGHTS (ScheduledService.type (doc service)))).
Proof.
  intros Hs Ht Hp Hd Hne Hother _ _ Hc Hdate Ho Hop Hoc Hod r. subst r.
  rewrite (revertServiceStatus_linked_ok _ _ _ _ _ Hs Ht Hp Hd). simpl.
  assert (Hdel : forall k o', operations st !! k = Some o' ->
            Operation.packId o' = packId ->
            Operation.clientId o' = ScheduledService.clientId (doc service) ->
            Operation.date o' = ScheduledService.scheduledDate (doc service) ->
            filter (fun kv =>
                      operation_matches packId
                        (ScheduledService.clientId (doc service))
                        (ScheduledService.scheduledDate (doc service)) kv.2 = false)
                   (operations st) !! k = None).
  { intros k o' Ho' H1 H2 H3. apply map_lookup_filter_None. right.
    intros o'' Ho''. rewrite Ho' in Ho''. injection Ho'' as <-. simpl.
    unfold operation_matches. by rewrite !bool_decide_eq_true_2. }
  split; [done|]. split; [exact Hdel|]. split; [|split].
  - apply (Hdel _ _ Ho); congruence.
  - by rewrite lookup_insert_ne.
  - eexists. split; [apply lookup_insert_eq|]. by simpl.
Qed.

End LedgerDesign.

(* ===================================================================== *)
(** ** The ledger theorems at the scenarios *)
(* ===================================================================== *)

Ltac evaluate := vm_compute; first [reflexivity | discriminate | done].

(** Pack(total=8, used=7) satisfies the invariant, and so does the pack that
    completing a walk leaves behind, Pack(total=8, used=8). *)
Lemma ledger_op_keeps_pack_invariant_scenario :
  pack_inv (Scenario.pack walk_service 8 7 true)
  /\ pack_inv (Scenario.pack walk_service 8 8 false).
Proof.
  assert (H : pack_inv (Scenario.pack walk_service 8 7 true))
    by (unfold pack_inv; simpl; lia).
  split; [exact H|].
  apply (ledger_op_keeps_pack_invariant
           (Debit (Scenario.snapshot "svc1" (Scenario.booking walk scheduled None)) 0 "op1")
           Scenario.walk_8_7 "pack1" (Scenario.pack walk_service 8 7 true));
    [evaluate | exact H | evaluate].
Defined.

(** Scenario: Pack(total=8, used=7) + complete(full_day), weight 2: fails
    with InsufficientCredits, store unchanged. *)
Lemma complete_insufficient_credits_scenario :
  8 - 7 < OPERATION_WEIGHTS full_day
  /\ completeService
       (Scenario.snapshot "svc1" (Scenario.booking full_day scheduled None))
       0 "op1" Scenario.full_day_8_7
     = (Failed InsufficientCredits, Scenario.full_day_8_7).
Proof.
  split; [evaluate|].
  apply (complete_insufficient_credits
           (Scenario.snapshot "svc1" (Scenario.booking full_day scheduled None))
           0 "op1" Scenario.full_day_8_7 "pack1"
           (Scenario.pack walk_service 8 7 true) "client1");
    evaluate.
Defined.

(** Scenario: Pack(total=8, used=7) + complete(walk): used=8,
    isActive=false, one Operation of weight 1 created. *)
Lemma complete_debits_pack_scenario :
  let r := completeService
             (Scenario.snapshot "svc1" (Scenario.booking walk scheduled None))
             0 "op1" Scenario.walk_8_7 in
  7 + OPERATION_WEIGHTS walk <= 8
  /\ r.1 = Ok
  /\ packs r.2 !! "pack1" = Some (Scenario.pack walk_service 8 8 false)
  /\ operations r.2 = {[ "op1" := Scenario.operation walk ]}
  /\ Operation.weight (Scenario.operation walk) = 1
  /\ scheduledServices r.2 !! "svc1" = Some (Scenario.booking walk completed (Some 0)).
Proof.
  intros r.
  destruct (complete_debits_pack
              (Scenario.snapshot "svc1" (Scenario.booking walk scheduled None))
              0 "op1" Scenario.walk_8_7 "pack1"
              (Scenario.pack walk_service 8 7 true))
    as (Hok & _); [evaluate..|].
  split; [evaluate|]. split; [exact Hok|]. subst r. repeat split; evaluate.
Defined.

(** The round trip on Pack(total=8, used=7) and a scheduled walk. *)
Lemma complete_then_revert_roundtrip_scenario :
  let st1 := (completeService
                (Scenario.snapshot "svc1" (Scenario.booking walk scheduled None))
                0 "op1" Scenario.walk_8_7).2 in
  let r2 := revertServiceStatus
              (Scenario.snapshot "svc1" (Scenario.booking walk completed (Some 0))) st1 in
  0 <= 7
  /\ (exists d1, scheduledServices st1 !! "svc1" = Some d1
                 /\ ScheduledService.status d1 = completed)
  /\ packs r2.2 !! "pack1" = Some (Scenario.pack walk_service 8 7 true)
  /\ scheduledServices r2.2 !! "svc1" = Some (Scenario.booking walk scheduled None).
Proof.
  intros st1 r2.
  destruct (complete_then_revert_roundtrip
              (Scenario.snapshot "svc1" (Scenario.booking walk scheduled None))
              0 "op1" Scenario.walk_8_7 "pack1"
              (Scenario.pack walk_service 8 7 true))
    as (d1 & Hd1 & Hs1 & _); [evaluate..|].
  split; [evaluate|]. split; [by exists d1|]. subst r2 st1. split; evaluate.
Defined.

(** Reverting one of the two completed walks of [Scenario.same_day_twice]:
    the pack goes from 2 used credits to 1 and is active. *)
Lemma revert_credits_pack_scenario :
  let r := revertServiceStatus
             (Scenario.snapshot "svc1" (Scenario.booking walk completed (Some Scenario.day1)))
             Scenario.same_day_twice in
  r.1 = Ok
  /\ packs r.2 !! "pack1" = Some (Scenario.pack walk_service 8 1 true).
Proof.
  intros r.
  destruct (revert_credits_pack
              (Scenario.snapshot "svc1" (Scenario.booking walk completed (Some Scenario.day1)))
              Scenario.same_day_twice "pack1" (Scenario.pack walk_service 8 2 true))
    as (Hok & _); [evaluate..|].
  split; [exact Hok|]. subst r. evaluate.
Defined.

(** A sitter pack with room left: completing a booking succeeds and the
    pack stays active. *)
Lemma sitter_debit_checked_against_capacity_scenario :
  let st := Scenario.one_booking (Scenario.pack sitter 9999 10 true)
              (Scenario.booking partial scheduled None) in
  let r := completeService
             (Scenario.snapshot "svc1" (Scenario.booking partial scheduled None))
             0 "op1" st in
  10 + OPERATION_WEIGHTS partial < 9999
  /\ r.1 = Ok
  /\ packs r.2 !! "pack1" = Some (Scenario.pack sitter 9999 11 true).
Proof.
  intros st r.
  destruct (sitter_debit_checked_against_capacity
              (Scenario.snapshot "svc1" (Scenario.booking partial scheduled None))
              0 "op1" st "pack1" (Scenario.pack sitter 9999 10 true))
    as (_ & _ & Hroom); [evaluate..|].
  split; [evaluate|]. destruct Hroom as [Hok _]; [evaluate|].
  split; [exact Hok|]. subst r st. evaluate.
Defined.

(** The cancelled walk of the scenario, reverted. *)
Lemma revert_of_cancelled_flips_to_scheduled_scenario :
  let st := Scenario.one_booking (Scenario.pack walk_service 8 7 true)
              (Scenario.booking walk cancelled None) in
  let r := revertServiceStatus
             (Scenario.snapshot "svc1" (Scenario.booking walk cancelled None)) st in
  r.1 = Ok
  /\ scheduledServices r.2 !! "svc1" = Some (Scenario.booking walk scheduled None)
  /\ packs r.2 = packs st.
Proof.
  intros st r.
  destruct (revert_of_cancelled_flips_to_scheduled
              (Scenario.snapshot "svc1" (Scenario.booking walk cancelled None)) st)
    as (Hok & Hpacks & _); [evaluate..|].
  split; [exact Hok|]. split; [subst r st; evaluate|exact Hpacks].
Defined.

(** Two completed walks of one client, one pack and one scheduled date:
    reverting the first deletes both Operations, leaves the second booking
    'completed', and gives back one credit only. *)
Lemma revert_deletes_every_matching_operation_scenario :
  let r := revertServiceStatus
             (Scenario.snapshot "svc1" (Scenario.booking walk completed (Some Scenario.day1)))
             Scenario.same_day_twice in
  operations Scenario.same_day_twice !! "op1" = Some (Scenario.operation walk)
  /\ operations Scenario.same_day_twice !! "op2" = Some (Scenario.operation walk)
  /\ r.1 = Ok
  /\ operations r.2 !! "op2" = None
  /\ operations r.2 = ∅
  /\ scheduledServices r.2 !! "svc2"
     = Some (Scenario.booking walk completed (Some Scenario.day1))
  /\ packs r.2 !! "pack1" = Some (Scenario.pack walk_service 8 1 true).
Proof.
  intros r.
  destruct (revert_deletes_every_matching_operation
              (Scenario.snapshot "svc1" (Scenario.booking walk completed (Some Scenario.day1)))
              Scenario.same_day_twice "pack1" (Scenario.pack walk_service 8 2 true)
              "svc2" "op2"
              (Scenario.booking walk completed (Some Scenario.day1))
              (Scenario.operation walk))
    as (Hok & _ & Hgone & Hother & _); [evaluate..|].
  split; [evaluate|]. split; [evaluate|]. split; [exact Hok|].
  split; [exact Hgone|]. split; [subst r; evaluate|].
  split; [exact Hother|]. subst r. evaluate.
Defined.

(* ===================================================================== *)
(** ** The slot grid *)
(* ===================================================================== *)

Section SlotGrid.

Lemma length_slot_codes : length slot_codes = length TIME_SLOTS.
Proof. apply length_fmap. Qed.

(** [Math.ceil(a / b)] is the least integer [c] with [a <= b * c]. *)
Lemma Math_ceil_div_spec a b :
  0 < b -> b * (Math_ceil_div a b - 1) < a <= b * Math_ceil_div a b.
Proof.
  intros Hb. unfold Math_ceil_div.
  pose proof (Z.div_mod (- a) b) as Hdm.
  pose proof (Z.mod_pos_bound (- a) b Hb) as Hmod. nia.
Qed.

Lemma take_min_length {A} (l : list A) (a b : nat) :
  (length l <= a)%nat -> take (Nat.min a b) l = take b l.
Proof.
  intros Hlen. destruct (Nat.le_gt_cases b a) as [Hle|Hgt].
  - by rewrite Nat.min_r.
  - rewrite Nat.min_l by lia. rewrite !take_ge by lia. done.
Qed.

(** What the loop pushes: the catalog codes from index [startIndex + i] on,
    at most [slotsNeeded - i] of them, at most [fuel] of them. *)
Lemma getOccupiedSlots_loop_spec fuel startIndex slotsNeeded i slots :
  0 <= startIndex + i ->
  getOccupiedSlots_loop fuel startIndex slotsNeeded i slots =
  slots ++ take (Nat.min fuel (Z.to_nat (slotsNeeded - i)))
                (drop (Z.to_nat (startIndex + i)) slot_codes).
Proof.
  revert i slots. induction fuel as [|fuel IH]; intros i slots Hpos.
  - simpl. by rewrite app_nil_r.
  - cbn [getOccupiedSlots_loop].
    destruct (Z.ltb_spec i slotsNeeded) as [Hi|Hi]; cbn [andb].
    + destruct (Z.ltb_spec (startIndex + i) (Z.of_nat (length TIME_SLOTS))) as [Hin|Hout].
      * destruct (lookup_lt_is_Some_2 TIME_SLOTS (Z.to_nat (startIndex + i)))
          as [s Hs]; [lia|].
        rewrite Hs, IH by lia.
        assert (Hcode : slot_codes !! Z.to_nat (startIndex + i) = Some (TimeSlot.value s))
          by (unfold slot_codes; by rewrite list_lookup_fmap, Hs).
        rewrite (drop_S _ _ _ Hcode).
        replace (Z.to_nat (slotsNeeded - i))
          with (S (Z.to_nat (slotsNeeded - (i + 1)))) by lia.
        replace (Z.to_nat (startIndex + (i + 1)))
          with (S (Z.to_nat (startIndex + i))) by lia.
        rewrite <- Nat.succ_min_distr. cbn [take]. by rewrite <- app_assoc.
      * rewrite drop_ge by (rewrite length_slot_codes; lia).
        by rewrite take_nil, app_nil_r.
    + replace (Z.to_nat (slotsNeeded - i)) with 0%nat by lia.
      rewrite Nat.min_0_r. by rewrite app_nil_r.
Qed.

(** The fuel [getOccupiedSlots] passes, the catalog length, is never what
    stops the loop: more fuel gives the same slots. *)
Lemma getOccupiedSlots_loop_fuel extra startIndex slotsNeeded :
  0 <= startIndex ->
  getOccupiedSlots_loop (length TIME_SLOTS + extra) startIndex slotsNeeded 0 [] =
  getOccupiedSlots_loop (length TIME_SLOTS) startIndex slotsNeeded 0 [].
Proof.
  intros Hpos. rewrite !getOccupiedSlots_loop_spec by lia.
  rewrite !take_min_length; [done|..];
    rewrite length_drop, length_slot_codes; lia.
Qed.

(** In the catalog every code occurs once, so findIndex returns the position
    of a catalog code. *)
Lemma findIndex_slot_code (idx : nat) (startSlot : string) :
  slot_codes !! idx = Some startSlot ->
  findIndex (fun s => bool_decide (TimeSlot.value s = startSlot)) TIME_SLOTS
  = Z.of_nat idx.
Proof.
  intros H.
  do 13 (destruct idx as [|idx]; [injection H as <-; vm_compute; reflexivity|]).
  discriminate H.
Qed.

Lemma findIndex_not_slot_code (startSlot : string) :
  startSlot ∉ slot_codes ->
  findIndex (fun s => bool_decide (TimeSlot.value s = startSlot)) TIME_SLOTS = -1.
Proof.
  intros Hnot. unfold findIndex, TIME_SLOTS. cbn [findIndex_from TimeSlot.value].
  repeat (rewrite bool_decide_eq_false_2;
          [|intros Heq; apply Hnot; rewrite <- Heq; unfold slot_codes, TIME_SLOTS;
            cbn [fmap list_fmap TimeSlot.value]; set_solver]).
  done.
Qed.

(** getOccupiedSlots from a catalog slot. *)
Lemma getOccupiedSlots_from_catalog (idx : nat) (startSlot : string) (duration : Z) :
  slot_codes !! idx = Some startSlot ->
  getOccupiedSlots startSlot duration =
  take (Z.to_nat (Math_ceil_div duration 30)) (drop idx slot_codes).
Proof.
  intros H. unfold getOccupiedSlots. rewrite (findIndex_slot_code _ _ H).
  destruct (Z.eqb_spec (Z.of_nat idx) (-1)) as [Hneg|_]; [lia|].
  rewrite getOccupiedSlots_loop_spec by lia. rewrite app_nil_l.
  rewrite Z.add_0_r, Z.sub_0_r, Nat2Z.id.
  apply take_min_length. rewrite length_drop, length_slot_codes. lia.
Qed.

End SlotGrid.

Section SlotGridClaims.




End SlotGridClaims.

(* ===================================================================== *)
(** ** The schedule form *)
(* ===================================================================== *)

Section JSDateFacts.

Import JSDate.

Lemma year_of_era doe :
  0 <= doe < 146097 ->
  let yoe := (doe - doe / 1460 + doe / 36524 - doe / 146096) / 365 in
  0 <= yoe <= 399 /\ 0 <= doe - (365 * yoe + yoe / 4 - yoe / 100) <= 365.
Proof.
  intros H yoe. subst yoe. Z.to_euclidean_division_equations; lia.
Qed.

Lemma month_of_year doy :
  0 <= doy <= 365 ->
  let mp := (5 * doy + 2) / 153 in
  0 <= mp <= 11 /\ 1 <= doy - (153 * mp + 2) / 5 + 1 <= 31.
Proof.
  intros H mp. subst mp. Z.to_euclidean_division_equations; lia.
Qed.

(** The civil date of a day number has that day number, a month in 1..12
    and a day of month in 1..31. *)
Lemma civil_from_days_inv z :
  days_from_civil (civil_from_days z).1.1 (civil_from_days z).1.2 (civil_from_days z).2 = z
  /\ 1 <= (civil_from_days z).1.2 <= 12
  /\ 1 <= (civil_from_days z).2 <= 31.
Proof.
  unfold civil_from_days. cbn zeta.
  set (era := (z + 719468) / 146097).
  set (doe := z + 719468 - era * 146097).
  assert (Hdoe : 0 <= doe < 146097)
    by (subst doe era; Z.to_euclidean_division_equations; lia).
  destruct (year_of_era doe Hdoe) as [Hyoe Hdoy]. cbn zeta in Hyoe, Hdoy.
  set (yoe := (doe - doe / 1460 + doe / 36524 - doe / 146096) / 365) in *.
  set (doy := doe - (365 * yoe + yoe / 4 - yoe / 100)) in *.
  destruct (month_of_year doy Hdoy) as [Hmp Hd]. cbn zeta in Hmp, Hd.
  set (mp := (5 * doy + 2) / 153) in *.
  set (d := doy - (153 * mp + 2) / 5 + 1) in *.
  cbn [fst snd]. unfold days_from_civil.
  destruct (Z.ltb_spec mp 10) as [Hlt|Hge].
  - destruct (Z.leb_spec (mp + 3) 2) as [?|_]; [lia|].
    destruct (Z.gtb_spec (mp + 3) 2) as [_|?]; [|lia].
    replace ((yoe + era * 400) / 400) with era
      by (Z.to_euclidean_division_equations; lia).
    replace (mp + 3 - 3) with mp by lia.
    replace (yoe + era * 400 - era * 400) with yoe by lia.
    split; [subst d doy doe; lia|lia].
  - destruct (Z.leb_spec (mp - 9) 2) as [_|?]; [|lia].
    destruct (Z.gtb_spec (mp - 9) 2) as [?|_]; [lia|].
    replace (yoe + era * 400 + 1 - 1) with (yoe + era * 400) by lia.
    replace ((yoe + era * 400) / 400) with era
      by (Z.to_euclidean_division_equations; lia).
    replace (mp - 9 + 9) with mp by lia.
    replace (yoe + era * 400 - era * 400) with yoe by lia.
    split; [subst d doy doe; lia|lia].
Qed.

Lemma days_from_civil_date y m d d' :
  days_from_civil y m d' = days_from_civil y m d + (d' - d).
Proof. unfold days_from_civil. lia. Qed.

(** MakeDay of a date's own year and month is linear in the day of month. *)
Lemma MakeDay_own_month t dt :
  MakeDay (getFullYear t) (getMonth t) dt = Day t + (dt - getDate t).
Proof.
  unfold MakeDay, getFullYear, getMonth, getDate.
  destruct (civil_from_days_inv (Day t)) as (Hday & Hm & _).
  set (c := civil_from_days (Day t)) in *.
  replace ((c.1.2 - 1) / 12) with 0 by (Z.to_euclidean_division_equations; lia).
  replace ((c.1.2 - 1) mod 12) with (c.1.2 - 1)
    by (Z.to_euclidean_division_equations; lia).
  rewrite Z.add_0_r, Z.sub_add.
  rewrite (days_from_civil_date _ _ c.2 1). lia.
Qed.

(** [d.setDate(d.getDate() + 1)] is the same time on the next day. *)
Lemma setDate_next_day t : setDate t (getDate t + 1) = t + msPerDay.
Proof.
  unfold setDate, MakeDate, TimeWithinDay. rewrite MakeDay_own_month.
  unfold Day. pose proof (Z.div_mod t msPerDay). unfold msPerDay in *. lia.
Qed.

(** [new Date(d.getFullYear(), d.getMonth(), d.getDate(), 12, 0, 0)] is noon
    of the same day, for a date outside the years 0..99. *)
Lemma make_noon_same_day t :
  ~ (0 <= getFullYear t <= 99) ->
  make (getFullYear t) (getMonth t) (getDate t) 12 0 0
  = Day t * msPerDay + 12 * msPerHour.
Proof.
  intros Hyear. unfold make.
  destruct (Z.leb_spec 0 (getFullYear t)); destruct (Z.leb_spec (getFullYear t) 99);
    cbn [andb]; try lia;
    rewrite MakeDay_own_month; unfold MakeDate, MakeTime; lia.
Qed.

End JSDateFacts.

Section Recurrence.

Import ScheduleForm.

(** The fuel [generateRecurringDates] passes, the number of days from the
    start date to the end date inclusive, is never what stops the loop: more
    fuel gives the same dates. *)
Lemma generateRecurringDates_loop_fuel (extra : nat) currentDate endDate weekdays dates :
  generateRecurringDates_loop
    (Z.to_nat ((endDate - currentDate) / JSDate.msPerDay + 1) + extra)
    currentDate endDate weekdays dates =
  generateRecurringDates_loop
    (Z.to_nat ((endDate - currentDate) / JSDate.msPerDay + 1))
    currentDate endDate weekdays dates.
Proof.
  remember (Z.to_nat ((endDate - currentDate) / JSDate.msPerDay + 1)) as n eqn:Hn.
  revert currentDate dates Hn. induction n as [|n IH]; intros currentDate dates Hn.
  - destruct extra as [|extra]; [done|]. cbn [Nat.add generateRecurringDates_loop].
    destruct (Z.leb_spec currentDate endDate) as [Hle|_]; [|done].
    exfalso.
    assert (0 <= (endDate - currentDate) / JSDate.msPerDay)
      by (apply Z.div_pos; [lia|done]).
    lia.
  - cbn [Nat.add generateRecurringDates_loop].
    destruct (Z.leb_spec currentDate endDate) as [Hle|_]; [|done].
    apply IH. rewrite setDate_next_day.
    replace (endDate - (currentDate + JSDate.msPerDay))
      with ((endDate - currentDate) + (-1) * JSDate.msPerDay) by lia.
    rewrite Z.div_add by done. lia.
Qed.

Lemma insert_size_nonzero (k v : string) (m : gmap string string) :
  bool_decide (size (<[k := v]> m) = 0%nat) = false.
Proof.
  apply bool_decide_eq_false_2. rewrite map_size_empty_iff.
  apply insert_non_empty.
Qed.

(** A recurring request with no weekday selected is refused, with the
    message of the weekday field. *)
Lemma validate_no_weekday s :
  isRecurring s = true ->
  selectedWeekdays s = [] ->
  (validate s).2 = false
  /\ (validate s).1 !! "weekdays" = Some "Selecione pelo menos um dia da semana".
Proof.
  intros Hrec Hwd.
  assert (Hnone : (Z.of_nat (length (selectedWeekdays s)) =? 0) = true)
    by by rewrite Hwd.
  unfold validate. rewrite Hrec, Hnone. cbn [fst snd].
  repeat match goal with
         | |- context [if ?b then _ else _] => destruct b
         end;
    rewrite ?insert_size_nonzero;
    (split; [done|]);
    rewrite ?(lookup_insert_ne _ "endDate" "weekdays") by done;
    apply lookup_insert_eq.
Qed.

(** A recurring request whose end date is not after its start date, as the
    strings compare, is refused, with a message on the end-date field. *)
Lemma validate_end_not_after_start s :
  isRecurring s = true ->
  js_string_le (recurrenceEndDate s) (scheduledDate (formData s)) = true ->
  (validate s).2 = false
  /\ is_Some ((validate s).1 !! "endDate").
Proof.
  intros Hrec Hle. unfold validate. rewrite Hrec, Hle. cbn [fst snd].
  destruct (bool_decide (recurrenceEndDate s = EmptyString)); cbn [negb andb];
    rewrite insert_size_nonzero; (split; [done|]);
    rewrite lookup_insert_eq; by eexists.
Qed.

Lemma handleSubmit_refused s : (validate s).2 = false -> handleSubmit s = [].
Proof. intros H. unfold handleSubmit. by rewrite H. Qed.

End Recurrence.

Section RecurrenceClaims.

Import ScheduleForm.

(** C8, as stated, fails on the count: between 2024-01-01 and 2024-01-15
    inclusive there are three Mondays and two Wednesdays, and five dates, not
    six, are generated. *)
Lemma jan_mon_wed_is_not_six_dates :
  length (generateRecurringDates Scenario.jan_mon_wed) = 5%nat
  /\ length (generateRecurringDates Scenario.jan_mon_wed) <> 6%nat.
Proof. vm_compute. split; [reflexivity|discriminate]. Qed.

(** C8, amended. For start 2024-01-01, end 2024-01-15 and weekdays
    {Monday, Wednesday} the form generates the five matching dates
    2024-01-01, 01-03, 01-08, 01-10 and 01-15, each at noon, in ascending
    order, and submits one booking for each. Every recurring request whose
    end date is not after its start date (as the form compares the two date
    strings), or whose weekday set is empty, is refused by validation with a
    message on the end-date or the weekday field, and handleSubmit makes no
    [onSubmit] call, so no booking is created. *)
Theorem recurrence_expander_dates_and_refusals :
  (let dates := generateRecurringDates Scenario.jan_mon_wed in
   dates = [1704110400000; 1704283200000; 1704715200000; 1704888000000; 1705320000000]
   /\ (fun t => (JSDate.getFullYear t, JSDate.getMonth t + 1, JSDate.getDate t,
                 JSDate.getDay t, t mod JSDate.msPerDay / JSDate.msPerHour)) <$> dates
      = [(2024, 1, 1, 1, 12); (2024, 1, 3, 3, 12); (2024, 1, 8, 1, 12);
         (2024, 1, 10, 3, 12); (2024, 1, 15, 1, 12)]
   /\ StronglySorted Z.lt dates
   /\ (validate Scenario.jan_mon_wed).2 = true
   /\ sub_scheduledDate <$> handleSubmit Scenario.jan_mon_wed = Some <$> dates)
  /\ (forall s,
        isRecurring s = true ->
        js_string_le (recurrenceEndDate s) (scheduledDate (formData s)) = true
        \/ selectedWeekdays s = [] ->
        (validate s).2 = false
        /\ (is_Some ((validate s).1 !! "endDate")
            \/ is_Some ((validate s).1 !! "weekdays"))
        /\ handleSubmit s = []).
Proof.
  split.
  - assert (Hdates : generateRecurringDates Scenario.jan_mon_wed
                     = [1704110400000; 1704283200000; 1704715200000;
                        1704888000000; 1705320000000])
      by (vm_compute; reflexivity).
    cbn zeta. rewrite Hdates.
    split; [done|]. split; [vm_compute; reflexivity|].
    split; [repeat constructor; lia|].
    split; vm_compute; reflexivity.
  - intros s Hrec [Hend|Hwd].
    + destruct (validate_end_not_after_start s Hrec Hend) as [Hv Hmsg].
      split; [done|]. split; [by left|by apply handleSubmit_refused].
    + destruct (validate_no_weekday s Hrec Hwd) as [Hv Hmsg].
      split; [done|]. split; [right; by eexists|by apply handleSubmit_refused].
Qed.

(** The January request with its end date equal to its start date, and with
    no weekday selected: nothing is submitted. *)
Lemma recurrence_expander_refusals_scenario :
  (js_string_le "2024-01-01" "2024-01-01" = true
   /\ handleSubmit Scenario.jan_end_is_start = [])
  /\ (selectedWeekdays Scenario.jan_no_weekday = []
      /\ handleSubmit Scenario.jan_no_weekday = []).
Proof.
  destruct recurrence_expander_dates_and_refusals as [_ Hrefuse].
  split; (split; [reflexivity|]).
  - apply (Hrefuse Scenario.jan_end_is_start eq_refl). left. reflexivity.
  - apply (Hrefuse Scenario.jan_no_weekday eq_refl). right. reflexivity.
Defined.

End RecurrenceClaims.

(* ===================================================================== *)
(** ** Further behaviour of the booking hooks *)
(* ===================================================================== *)

Section BookingHooks.

Implicit Types (st : Store) (service : ScheduledServiceWithClient).
Implicit Types (p : Pack.t) (d : ScheduledService.t).

(** completeService on a pack-linked booking whose document is gone: the
    transaction fails at the last write and nothing is committed. *)
Lemma completeService_linked_missing_booking service now operationRef st packId p :
  truthy_packId (ScheduledService.packId (doc service)) = Some packId ->
  packs st !! packId = Some p ->
  scheduledServices st !! id service = None ->
  Pack.usedCredits p + OPERATION_WEIGHTS (ScheduledService.type (doc service))
    <= Pack.totalCredits p ->
  completeService service now operationRef st = (Failed DocumentNotFound, st).
Proof.
  intros Ht Hp Hd Hle. unfold completeService. rewrite Ht.
  unfold runTransaction, tx_bind, tx_get_pack. rewrite Hp. cbn zeta.
  destruct (Z.gtb_spec
              (Pack.usedCredits p + OPERATION_WEIGHTS (ScheduledService.type (doc service)))
              (Pack.totalCredits p)) as [Hgt|_]; [lia|].
  unfold tx_update_pack, tx_set_operation, tx_update_service. rewrite Hp. simpl.
  by rewrite Hd.
Qed.

(** X1. Completing a booking that has no pack ([packId] undefined, null or
    the empty string) never touches the ledger: packs and operations stay as
    they are. If the booking's document exists the call succeeds and marks
    it 'completed' at [now]; if not, it fails with UpdateFailed and changes
    nothing. *)
Theorem completeService_unlinked service now operationRef st :
  truthy_packId (ScheduledService.packId (doc service)) = None ->
  let r := completeService service now operationRef st in
  packs r.2 = packs st
  /\ operations r.2 = operations st
  /\ (forall d, scheduledServices st !! id service = Some d ->
        r.1 = Ok
        /\ scheduledServices r.2 =
             <[id service := status_completedAt_fields completed (Some now) d]>
               (scheduledServices st))
  /\ (scheduledServices st !! id service = None -> r = (Failed UpdateFailed, st)).
Proof.
  intros Ht r. subst r. unfold completeService. rewrite Ht.
  unfold updateScheduledService.
  destruct (scheduledServices st !! id service) as [d|]; simpl.
  - split; [done|]. split; [done|]. split; [|done].
    by intros d' [= <-].
  - split; [done|]. split; [done|]. split; done.
Qed.

(** X2. When the pack of a pack-linked booking is missing, complete and
    revert both fail with PackNotFound and change nothing: a completed
    booking whose pack has been deleted cannot be reverted. When the pack
    is there with room but the booking's own document is missing, complete
    fails with Firestore's not-found error and the debit is not applied. *)
Theorem missing_documents_abort service now operationRef st packId :
  truthy_packId (ScheduledService.packId (doc service)) = Some packId ->
  (packs st !! packId = None ->
     completeService service now operationRef st = (Failed PackNotFound, st)
     /\ (ScheduledService.status (doc service) = completed ->
         revertServiceStatus service st = (Failed PackNotFound, st)))
  /\ (forall p,
        packs st !! packId = Some p ->
        scheduledServices st !! id service = None ->
        Pack.usedCredits p + OPERATION_WEIGHTS (ScheduledService.type (doc service))
          <= Pack.totalCredits p ->
        completeService service now operationRef st = (Failed DocumentNotFound, st)).
Proof.
  intros Ht. split.
  - intros Hnone. split.
    + unfold completeService. rewrite Ht.
      unfold runTransaction, tx_bind, tx_get_pack. by rewrite Hnone.
    + intros Hs. unfold revertServiceStatus.
      rewrite Hs, bool_decide_eq_true_2, Ht by done.
      unfold runTransaction, tx_bind, tx_get_pack. by rewrite Hnone.
  - intros p Hp Hd Hle. by eapply completeService_linked_missing_booking.
Qed.

(** X3. completeService does not look at the booking's status. Completing a
    pack-linked booking and then completing it again, from the snapshot of
    the now 'completed' booking, debits the pack a second time and records a
    second Operation. *)
Theorem complete_twice_debits_twice service now1 now2 ref1 ref2 st packId p :
  truthy_packId (ScheduledService.packId (doc service)) = Some packId ->
  packs st !! packId = Some p ->
  scheduledServices st !! id service = Some (doc service) ->
  operations st !! ref1 = None ->
  operations st !! ref2 = None ->
  ref1 <> ref2 ->
  Pack.usedCredits p + 2 * OPERATION_WEIGHTS (ScheduledService.type (doc service))
    <= Pack.totalCredits p ->
  let weight := OPERATION_WEIGHTS (ScheduledService.type (doc service)) in
  let st1 := (completeService service now1 ref1 st).2 in
  exists service1,
    stored_service (id service) st1 = Some service1
    /\ ScheduledService.status (doc service1) = completed
    /\ let r2 := completeService service1 now2 ref2 st1 in
       r2.1 = Ok
       /\ (exists p2, packs r2.2 !! packId = Some p2
                      /\ Pack.usedCredits p2 = Pack.usedCredits p + 2 * weight)
       /\ size (operations r2.2) = S (S (size (operations st))).
Proof.
  intros Ht Hp Hd Hf1 Hf2 Hne Hle weight st1. subst st1 weight.
  pose proof (OPERATION_WEIGHTS_pos (ScheduledService.type (doc service))) as Hw.
  rewrite (completeService_linked_ok _ _ _ _ _ _ _ Ht Hp Hd) by lia. simpl.
  eexists. split; [unfold stored_service; simpl; by rewrite lookup_insert_eq|].
  split; [done|]. cbn zeta.
  erewrite completeService_linked_ok;
    [|exact Ht|apply lookup_insert_eq|apply lookup_insert_eq|simpl; lia].
  simpl. split; [done|]. split.
  - eexists. split; [apply lookup_insert_eq|]. simpl. lia.
  - rewrite map_size_insert_None by by rewrite lookup_insert_ne.
    by rewrite map_size_insert_None.
Qed.

(** X4. Cancelling a completed pack-linked booking, or marking it not done,
    is a pure status flip: the pack keeps the debit and the Operation stays.
    Reverting the booking afterwards brings it back to 'scheduled' without
    crediting anything. *)
Theorem flip_after_complete_keeps_debit service st (flip : string -> Store -> Outcome * Store) :
  flip = cancelService \/ flip = markAsNotDone ->
  scheduledServices st !! id service = Some (doc service) ->
  ScheduledService.status (doc service) = completed ->
  let r1 := flip (id service) st in
  r1.1 = Ok
  /\ packs r1.2 = packs st
  /\ operations r1.2 = operations st
  /\ exists service1,
       stored_service (id service) r1.2 = Some service1
       /\ ScheduledService.status (doc service1) <> completed
       /\ ScheduledService.completedAt (doc service1)
          = ScheduledService.completedAt (doc service)
       /\ let r2 := revertServiceStatus service1 r1.2 in
          r2.1 = Ok
          /\ packs r2.2 = packs st
          /\ operations r2.2 = operations st
          /\ scheduledServices r2.2 =
             <[id service := status_completedAt_fields scheduled None (doc service)]>
               (scheduledServices st).
Proof.
  intros Hflip Hd Hs r1. subst r1.
  assert (Hcases : exists s', s' <> completed
            /\ flip (id service) st =
               (Ok, {| packs := packs st; operations := operations st;
                       scheduledServices :=
                         <[id service := status_fields s' (doc service)]>
                           (scheduledServices st) |})).
  { destruct Hflip as [-> | ->].
    - exists cancelled. split; [done|].
      unfold cancelService, updateScheduledService. by rewrite Hd.
    - exists not_done. split; [done|].
      unfold markAsNotDone, updateScheduledService. by rewrite Hd. }
  destruct Hcases as (s' & Hs' & ->). simpl.
  split; [done|]. split; [done|]. split; [done|].
  eexists. split; [unfold stored_service; simpl; by rewrite lookup_insert_eq|].
  simpl. split; [done|]. split; [done|].
  unfold revertServiceStatus. simpl.
  rewrite bool_decide_eq_false_2 by done.
  unfold updateScheduledService. simpl. rewrite lookup_insert_eq. simpl.
  by rewrite insert_insert_eq.
Qed.

(** X5. Reverting a booking that is not 'completed', or that has no pack, is
    a pure status flip to 'scheduled' with [completedAt] cleared; packs and
    operations are untouched. When the booking's document is missing the call
    fails with UpdateFailed and changes nothing. *)
Theorem revertServiceStatus_without_credit service st :
  ScheduledService.status (doc service) <> completed
  \/ truthy_packId (ScheduledService.packId (doc service)) = None ->
  let r := revertServiceStatus service st in
  packs r.2 = packs st
  /\ operations r.2 = operations st
  /\ (forall d, scheduledServices st !! id service = Some d ->
        r.1 = Ok
        /\ scheduledServices r.2 =
             <[id service := status_completedAt_fields scheduled None d]>
               (scheduledServices st))
  /\ (scheduledServices st !! id service = None -> r = (Failed UpdateFailed, st)).
Proof.
  intros Hcase r. subst r. unfold revertServiceStatus.
  assert (Hnone : (if bool_decide (ScheduledService.status (doc service) = completed)
                   then truthy_packId (ScheduledService.packId (doc service))
                   else None) = None).
  { destruct Hcase as [Hs|Ht]; [by rewrite bool_decide_eq_false_2|].
    rewrite Ht. by case_bool_decide. }
  rewrite Hnone. unfold updateScheduledService.
  destruct (scheduledServices st !! id service) as [d|]; simpl.
  - split; [done|]. split; [done|]. split; [|done].
    by intros d' [= <-].
  - split; [done|]. split; [done|]. split; done.
Qed.

(** X6. Round trip: marking a scheduled booking (with [completedAt] unset)
    not done and reverting it gives back exactly the store one started
    from. *)
Theorem notDone_then_revert_restores_store serviceId st d :
  scheduledServices st !! serviceId = Some d ->
  ScheduledService.status d = scheduled ->
  ScheduledService.completedAt d = None ->
  let st1 := (markAsNotDone serviceId st).2 in
  exists service1,
    stored_service serviceId st1 = Some service1
    /\ ScheduledService.status (doc service1) = not_done
    /\ revertServiceStatus service1 st1 = (Ok, st).
Proof.
  intros Hd Hs Hc st1. subst st1.
  unfold markAsNotDone, updateScheduledService. rewrite Hd. simpl.
  eexists. split; [unfold stored_service; simpl; by rewrite lookup_insert_eq|].
  simpl. split; [done|].
  unfold revertServiceStatus. simpl. unfold updateScheduledService. simpl.
  rewrite lookup_insert_eq. simpl. rewrite insert_insert_eq.
  destruct st as [pk ops sv]. simpl in *. do 2 f_equal.
  apply insert_id. rewrite Hd. f_equal.
  destruct d. simpl in *. by subst.
Qed.

End BookingHooks.

Section LedgerBooks.

Implicit Types (st : Store) (service : ScheduledServiceWithClient).
Implicit Types (p : Pack.t) (d : ScheduledService.t) (o : Operation.t).

Lemma operations_weight_insert packId (ops : gmap string Operation.t) k o :
  ops !! k = None ->
  operations_weight packId (<[k := o]> ops) =
  if bool_decide (Operation.packId o = packId)
  then operations_weight packId ops + Operation.weight o
  else operations_weight packId ops.
Proof.
  intros Hk. unfold operations_weight.
  rewrite map_fold_insert_L; [done| |done].
  intros j1 j2 z1 z2 y _ _ _. repeat case_bool_decide; lia.
Qed.

Lemma operations_weight_delete packId (ops : gmap string Operation.t) k o :
  ops !! k = Some o ->
  operations_weight packId ops =
  if bool_decide (Operation.packId o = packId)
  then operations_weight packId (delete k ops) + Operation.weight o
  else operations_weight packId (delete k ops).
Proof.
  intros Hk. unfold operations_weight.
  rewrite (map_fold_delete_L _ _ k o ops); [done| |done].
  intros j1 j2 z1 z2 y _ _ _. repeat case_bool_decide; lia.
Qed.

(** Removing the operations that match, when exactly one does. *)
Lemma filter_unique_match (ops : gmap string Operation.t) pc cc dd k o :
  ops !! k = Some o ->
  (forall k' o', ops !! k' = Some o' ->
     operation_matches pc cc dd o' = true -> k' = k) ->
  operation_matches pc cc dd o = true ->
  filter (fun kv => operation_matches pc cc dd kv.2 = false) ops = delete k ops.
Proof.
  intros Hk Huniq Hm. apply map_eq. intros k'.
  destruct (decide (k' = k)) as [->|Hne].
  - rewrite lookup_delete_eq. apply map_lookup_filter_None. right.
    intros o' Ho'. rewrite Hk in Ho'. injection Ho' as <-. simpl. by rewrite Hm.
  - rewrite lookup_delete_ne by done.
    destruct (ops !! k') as [o'|] eqn:Ho'.
    + apply map_lookup_filter_Some. split; [done|]. simpl.
      destruct (operation_matches pc cc dd o') eqn:Hm'; [|done].
      by specialize (Huniq _ _ Ho' Hm').
    + apply map_lookup_filter_None. by left.
Qed.

(** X7. Round trip of the whole store: when the pack is active, the
    booking is 'scheduled' with [completedAt] unset, the new operation id is
    fresh and no operation of the same (pack, client, date) exists yet, then
    complete followed by revert of the booking as it then stands gives back
    exactly the store one started from. *)
Theorem complete_then_revert_restores_store service now operationRef st packId p :
  truthy_packId (ScheduledService.packId (doc service)) = Some packId ->
  packs st !! packId = Some p ->
  Pack.isActive p = true ->
  0 <= Pack.usedCredits p ->
  Pack.usedCredits p + OPERATION_WEIGHTS (ScheduledService.type (doc service))
    <= Pack.totalCredits p ->
  scheduledServices st !! id service = Some (doc service) ->
  ScheduledService.status (doc service) = scheduled ->
  ScheduledService.completedAt (doc service) = None ->
  operations st !! operationRef = None ->
  (forall k o, operations st !! k = Some o ->
     operation_matches packId (ScheduledService.clientId (doc service))
       (ScheduledService.scheduledDate (doc service)) o = false) ->
  let st1 := (completeService service now operationRef st).2 in
  exists service1,
    stored_service (id service) st1 = Some service1
    /\ revertServiceStatus service1 st1 = (Ok, st).
Proof.
  intros Ht Hp Hact Hused Hle Hd Hs Hc Hfresh Hnomatch st1. subst st1.
  rewrite (completeService_linked_ok _ _ _ _ _ _ _ Ht Hp Hd Hle). simpl.
  eexists. split; [unfold stored_service; simpl; by rewrite lookup_insert_eq|].
  erewrite revertServiceStatus_linked_ok;
    [|done|exact Ht|apply lookup_insert_eq|apply lookup_insert_eq].
  simpl. destruct st as [pk ops sv]. simpl in *. f_equal. f_equal.
  - rewrite insert_insert_eq. apply insert_id. rewrite Hp. f_equal.
    destruct p. unfold credit_fields. simpl in *. subst. f_equal. lia.
  - rewrite map_filter_insert_False.
    + rewrite delete_id by done. apply map_filter_id.
      intros k o Ho. simpl. by eapply Hnomatch.
    + simpl. unfold operation_matches. simpl.
      by rewrite !bool_decide_eq_true_2.
  - rewrite insert_insert_eq. apply insert_id. rewrite Hd. f_equal.
    destruct (doc service). simpl in *. by subst.
Qed.

(** X8. The debit keeps the books balanced. If every pack's [usedCredits]
    is the summed weight of its operations, and the id of the new operation
    is fresh, the same holds after completeService and after
    registerOperation, whatever their outcome. *)
Theorem debit_keeps_ledger_balanced st (operationRef : string) :
  ledger_balanced st ->
  operations st !! operationRef = None ->
  (forall service now,
     ledger_balanced (completeService service now operationRef st).2)
  /\ (forall packId clientId operationType now,
        ledger_balanced
          (registerOperation packId clientId operationType now operationRef st).2).
Proof.
  intros Hbal Hop.
  assert (Hstep : forall st' pid q w (ref : string) o,
            operations st !! ref = None ->
            packs st !! pid = Some q ->
            Operation.packId o = pid -> Operation.weight o = w ->
            packs st' = <[pid := debit_fields (Pack.usedCredits q + w) q q]> (packs st) ->
            operations st' = <[ref := o]> (operations st) ->
            ledger_balanced st').
  { intros st' pid q w ref o Hfresh Hq Hopid Hw Hpk Hops k q' Hk.
    rewrite Hops, operations_weight_insert by done.
    rewrite Hpk, lookup_insert in Hk. case_decide as Hkp.
    - subst k. injection Hk as <-. simpl.
      rewrite bool_decide_eq_true_2 by done. rewrite (Hbal _ _ Hq). lia.
    - rewrite bool_decide_eq_false_2 by congruence. by apply Hbal. }
  split.
  - intros service now. unfold completeService.
    destruct (truthy_packId _) as [pid|] eqn:Ht.
    + unfold runTransaction, tx_bind, tx_get_pack, tx_update_pack, tx_set_operation,
        tx_update_service, throw.
      destruct (packs st !! pid) as [q|] eqn:Hq; [|done]. cbn zeta.
      destruct (Z.gtb_spec
                  (Pack.usedCredits q + OPERATION_WEIGHTS (ScheduledService.type (doc service)))
                  (Pack.totalCredits q)); [done|].
      rewrite Hq. simpl.
      destruct (scheduledServices st !! id service); [|done].
      eapply (Hstep _ pid q _ operationRef); [done|done| | |done|done]; done.
    + unfold updateScheduledService.
      destruct (scheduledServices st !! id service); [|done].
      intros k q Hk. by apply Hbal.
  - intros pid cid t now.
    unfold registerOperation, runTransaction, tx_bind, tx_get_pack, tx_update_pack,
      tx_set_operation, throw.
    destruct (packs st !! pid) as [q|] eqn:Hq; [|done]. cbn zeta.
    destruct (Z.gtb_spec (Pack.usedCredits q + OPERATION_WEIGHTS t) (Pack.totalCredits q));
      [done|].
    rewrite Hq. simpl.
    eapply (Hstep _ pid q _ operationRef); [done|done| | |done|done]; done.
Qed.

(** X9. The credit keeps the books balanced when the reverted booking has
    exactly one matching operation, of the booking's weight, and the pack
    has at least that weight in use. *)
Theorem credit_keeps_ledger_balanced service st packId p k o :
  ledger_balanced st ->
  ScheduledService.status (doc service) = completed ->
  truthy_packId (ScheduledService.packId (doc service)) = Some packId ->
  packs st !! packId = Some p ->
  scheduledServices st !! id service = Some (doc service) ->
  operations st !! k = Some o ->
  operation_matches packId (ScheduledService.clientId (doc service))
    (ScheduledService.scheduledDate (doc service)) o = true ->
  (forall k' o', operations st !! k' = Some o' ->
     operation_matches packId (ScheduledService.clientId (doc service))
       (ScheduledService.scheduledDate (doc service)) o' = true -> k' = k) ->
  Operation.weight o = OPERATION_WEIGHTS (ScheduledService.type (doc service)) ->
  Operation.weight o <= Pack.usedCredits p ->
  (revertServiceStatus service st).1 = Ok
  /\ operations (revertServiceStatus service st).2 = delete k (operations st)
  /\ ledger_balanced (revertServiceStatus service st).2.
Proof.
  intros Hbal Hs Ht Hp Hd Hk Hm Huniq Hw Hle.
  rewrite (revertServiceStatus_linked_ok _ _ _ _ _ Hs Ht Hp Hd). simpl.
  rewrite (filter_unique_match _ _ _ _ _ _ Hk Huniq Hm).
  split; [done|]. split; [done|].
  intros k' q Hk'. simpl in *.
  assert (Hopid : Operation.packId o = packId).
  { unfold operation_matches in Hm.
    apply andb_prop in Hm as [Hm _]. apply andb_prop in Hm as [Hm _].
    by apply bool_decide_eq_true_1 in Hm. }
  pose proof (operations_weight_delete k' _ _ _ Hk) as Hdel.
  rewrite lookup_insert in Hk'. case_decide as Hkp.
  - subst k'. injection Hk' as <-. simpl.
    rewrite bool_decide_eq_true_2 in Hdel by done.
    rewrite (Hbal _ _ Hp) in Hle |- *. lia.
  - rewrite bool_decide_eq_false_2 in Hdel by congruence.
    rewrite <- Hdel. by apply Hbal.
Qed.

(** X10. An active pack always has a credit left: if this holds of a pack
    that respects [0 <= usedCredits <= totalCredits] and has a positive
    capacity, it still holds after any ledger operation. (The debit
    deactivates the pack when the last credit goes; the credit reactivates
    it after taking at least one credit back.) *)
Theorem ledger_op_keeps_active_has_credit (op : LedgerOp) st (k : string) p p' :
  packs st !! k = Some p ->
  pack_inv p ->
  0 < Pack.totalCredits p ->
  active_has_credit p ->
  packs (run_ledger_op op st).2 !! k = Some p' ->
  active_has_credit p'.
Proof.
  intros Hk Hinv Hpos Hact Hk'.
  assert (Hdebit : forall w q,
            packs st !! k = Some q ->
            active_has_credit (debit_fields (Pack.usedCredits q + w) q q)).
  { intros w q Hq. unfold active_has_credit. simpl.
    destruct (Z.geb_spec (Pack.usedCredits q + w) (Pack.totalCredits q)); [done|lia]. }
  assert (Hcredit : forall w q,
            1 <= w <= 2 -> packs st !! k = Some q ->
            active_has_credit (credit_fields (Z.max 0 (Pack.usedCredits q - w)) q)).
  { intros w q Hw Hq. rewrite Hk in Hq. injection Hq as <-.
    unfold active_has_credit, pack_inv in *. simpl. lia. }
  destruct op as [service now operationRef|service|pid cid t now operationRef]; simpl in Hk'.
  - destruct (completeService_packs service now operationRef st)
      as [Hsame|(pid & q & Hq & Hle & Hpacks)].
    + rewrite Hsame, Hk in Hk'. by injection Hk' as <-.
    + rewrite Hpacks, lookup_insert in Hk'. case_decide as Heq.
      * subst pid. injection Hk' as <-. by apply Hdebit.
      * rewrite Hk in Hk'. by injection Hk' as <-.
  - destruct (revertServiceStatus_packs service st)
      as [Hsame|(pid & q & Hq & Hpacks)].
    + rewrite Hsame, Hk in Hk'. by injection Hk' as <-.
    + rewrite Hpacks, lookup_insert in Hk'. case_decide as Heq.
      * subst pid. injection Hk' as <-.
        apply Hcredit; [apply OPERATION_WEIGHTS_pos|done].
      * rewrite Hk in Hk'. by injection Hk' as <-.
  - destruct (registerOperation_packs pid cid t now operationRef st)
      as [Hsame|(q & Hq & Hle & Hpacks)].
    + rewrite Hsame, Hk in Hk'. by injection Hk' as <-.
    + rewrite Hpacks, lookup_insert in Hk'. case_decide as Heq.
      * subst pid. injection Hk' as <-. by apply Hdebit.
      * rewrite Hk in Hk'. by injection Hk' as <-.
Qed.

(** X11. revertServiceStatus goes by the snapshot it is handed, not by the
    stored status. Reverting a completed pack-linked booking twice from the
    same snapshot credits the pack twice and leaves
    [max(0, max(0, usedCredits - weight) - weight)]. *)
Theorem revert_twice_credits_twice service st packId p :
  ScheduledService.status (doc service) = completed ->
  truthy_packId (ScheduledService.packId (doc service)) = Some packId ->
  packs st !! packId = Some p ->
  scheduledServices st !! id service = Some (doc service) ->
  let weight := OPERATION_WEIGHTS (ScheduledService.type (doc service)) in
  let r1 := revertServiceStatus service st in
  let r2 := revertServiceStatus service r1.2 in
  r1.1 = Ok
  /\ (exists d1, scheduledServices r1.2 !! id service = Some d1
                 /\ ScheduledService.status d1 = scheduled)
  /\ r2.1 = Ok
  /\ exists p2, packs r2.2 !! packId = Some p2
                /\ Pack.usedCredits p2
                   = Z.max 0 (Z.max 0 (Pack.usedCredits p - weight) - weight).
Proof.
  intros Hs Ht Hp Hd weight r1 r2. subst r2 r1 weight.
  rewrite (revertServiceStatus_linked_ok _ _ _ _ _ Hs Ht Hp Hd). simpl.
  split; [done|]. split; [eexists; split; [apply lookup_insert_eq|done]|].
  erewrite revertServiceStatus_linked_ok;
    [|exact Hs|exact Ht|apply lookup_insert_eq|apply lookup_insert_eq].
  simpl. split; [done|]. eexists. split; [apply lookup_insert_eq|done].
Qed.

(** X12. Deleting a booking never touches the ledger: a completed
    pack-linked booking that is deleted leaves its debit and its Operation
    behind. Deleting is idempotent, and completing the deleted booking from a
    stale snapshot fails without debiting. *)
Theorem delete_keeps_ledger service now operationRef st packId p :
  truthy_packId (ScheduledService.packId (doc service)) = Some packId ->
  packs st !! packId = Some p ->
  Pack.usedCredits p + OPERATION_WEIGHTS (ScheduledService.type (doc service))
    <= Pack.totalCredits p ->
  let r := deleteScheduledService (id service) st in
  r.1 = Ok
  /\ packs r.2 = packs st
  /\ operations r.2 = operations st
  /\ scheduledServices r.2 !! id service = None
  /\ deleteScheduledService (id service) r.2 = r
  /\ completeService service now operationRef r.2 = (Failed DocumentNotFound, r.2).
Proof.
  intros Ht Hp Hle r. subst r. unfold deleteScheduledService. simpl.
  split; [done|]. split; [done|]. split; [done|].
  split; [apply lookup_delete_eq|]. split.
  - f_equal. f_equal. apply delete_id, lookup_delete_eq.
  - eapply completeService_linked_missing_booking;
      [exact Ht|exact Hp|apply lookup_delete_eq|done].
Qed.

End LedgerBooks.

Section DirectRegistration.

Implicit Types (st : Store) (service : ScheduledServiceWithClient) (p : Pack.t).

(** X26. The two debit paths agree. Completing a pack-linked booking whose
    document exists has the same outcome and the same effect on packs and
    operations as registerOperation called for the booking's pack, client
    and type at the booking's scheduled date; registerOperation leaves the
    bookings untouched. *)
Theorem debit_paths_agree service now operationRef st packId d :
  truthy_packId (ScheduledService.packId (doc service)) = Some packId ->
  scheduledServices st !! id service = Some d ->
  let r1 := completeService service now operationRef st in
  let r2 := registerOperation packId (ScheduledService.clientId (doc service))
              (ScheduledService.type (doc service))
              (ScheduledService.scheduledDate (doc service)) operationRef st in
  r1.1 = r2.1
  /\ packs r1.2 = packs r2.2
  /\ operations r1.2 = operations r2.2
  /\ scheduledServices r2.2 = scheduledServices st.
Proof.
  intros Ht Hd r1 r2. subst r1 r2. unfold completeService, registerOperation.
  rewrite Ht.
  unfold runTransaction, tx_bind, tx_get_pack, tx_update_pack, tx_set_operation,
    tx_update_service, throw.
  destruct (packs st !! packId) as [p|] eqn:Hp; [|done]. cbn zeta.
  destruct (Z.gtb_spec
              (Pack.usedCredits p + OPERATION_WEIGHTS (ScheduledService.type (doc service)))
              (Pack.totalCredits p)) as [Hgt|_]; [done|].
  rewrite Hp. simpl. by rewrite Hd.
Qed.

End DirectRegistration.

(* ===================================================================== *)
(** ** Further behaviour of the slot grid and the day view *)
(* ===================================================================== *)

Section DayView.

Implicit Types (slot : TimeSlot.t) (s service : ScheduledServiceWithClient).
Implicit Types (sv : list ScheduledServiceWithClient) (P : gset string).

Lemma find_Some_elem {A} (f : A -> bool) (l : list A) x :
  List.find f l = Some x -> x ∈ l /\ f x = true.
Proof. intros H. apply find_some in H as [Hin Hf]. by rewrite list_elem_of_In. Qed.

Lemma find_None_all {A} (f : A -> bool) (l : list A) :
  List.find f l = None <-> forall x, x ∈ l -> f x = false.
Proof.
  split.
  - intros H x Hx. apply (find_none f l H). by apply list_elem_of_In.
  - intros H. destruct (List.find f l) as [x|] eqn:Hfind; [|done].
    apply find_Some_elem in Hfind as [Hin Hf]. rewrite (H _ Hin) in Hf. done.
Qed.

Lemma find_only {A} (f : A -> bool) (l : list A) x :
  x ∈ l -> f x = true -> (forall y, y ∈ l -> f y = true -> y = x) ->
  List.find f l = Some x.
Proof.
  intros Hin Hf Honly. destruct (List.find f l) as [y|] eqn:Hfind.
  - apply find_Some_elem in Hfind as [Hy Hfy]. by rewrite (Honly _ Hy Hfy).
  - rewrite find_None_all in Hfind. rewrite (Hfind _ Hin) in Hf. done.
Qed.

Lemma slot_codes_not_empty code : code ∈ slot_codes -> code <> EmptyString.
Proof.
  intros Hin ->. revert Hin. change (EmptyString ∉ slot_codes).
  apply (bool_decide_unpack _). vm_compute. exact I.
Qed.

Lemma slot_codes_NoDup : NoDup slot_codes.
Proof. apply (bool_decide_unpack _). vm_compute. exact I. Qed.

Lemma elem_of_slot_codes_index code :
  code ∈ slot_codes -> exists idx : nat, slot_codes !! idx = Some code.
Proof. apply list_elem_of_lookup_1. Qed.

(** The slots pushed so far are only ever extended. *)
Lemma slotsView_loop_app slots sv P view :
  slotsView_loop slots sv P view = view ++ slotsView_loop slots sv P [].
Proof.
  revert P view. induction slots as [|slot rest IH]; intros P view; simpl.
  - by rewrite app_nil_r.
  - case_bool_decide; [apply IH|].
    destruct (List.find _ sv) as [s|].
    + rewrite IH, (IH _ [_]). by rewrite app_assoc.
    + destruct (List.find (occupies_from_earlier slot) sv) as [s|];
        rewrite IH, (IH _ [_]); by rewrite app_assoc.
Qed.

Lemma occupies_from_earlier_true slot s :
  occupies_from_earlier slot s = true <->
  ScheduledService.scheduledTime (doc s) <> EmptyString
  /\ ScheduledService.scheduledTime (doc s) <> TimeSlot.value slot
  /\ TimeSlot.value slot ∈ service_slots s.
Proof.
  unfold occupies_from_earlier, service_slots. case_bool_decide as He.
  - split; [done|]. by intros [? _].
  - cbn zeta. rewrite andb_true_iff, negb_true_iff.
    rewrite bool_decide_eq_true, bool_decide_eq_false. tauto.
Qed.

Lemma slotsView_loop_sound slots sv P item :
  item ∈ slotsView_loop slots sv P [] ->
  item_sound sv item /\ view_slot item ∈ slots.
Proof.
  revert P. induction slots as [|slot rest IH]; intros P; simpl.
  - by intros ?%elem_of_nil.
  - case_bool_decide as HP.
    { intros [Hs Hin]%IH. split; [done|]. by apply elem_of_cons; right. }
    destruct (List.find _ sv) as [s|] eqn:Hstart.
    + rewrite slotsView_loop_app. intros [->%list_elem_of_singleton|Hin]%elem_of_app.
      * apply find_Some_elem in Hstart as [Hin Ht].
        apply bool_decide_eq_true_1 in Ht.
        split; [|by apply elem_of_cons; left].
        simpl. unfold service_slots. by rewrite Ht.
      * apply IH in Hin as [Hs Hin]. split; [done|]. by apply elem_of_cons; right.
    + destruct (List.find (occupies_from_earlier slot) sv) as [s|] eqn:Hocc;
        rewrite slotsView_loop_app;
        intros [->%list_elem_of_singleton|Hin]%elem_of_app.
      * apply find_Some_elem in Hocc as [Hin Ho].
        apply occupies_from_earlier_true in Ho.
        split; [|by apply elem_of_cons; left]. by simpl.
      * apply IH in Hin as [Hs Hin]. split; [done|]. by apply elem_of_cons; right.
      * split; [|by apply elem_of_cons; left].
        simpl. intros s Hs. rewrite find_None_all in Hstart, Hocc.
        split; [|by apply Hocc].
        specialize (Hstart _ Hs). by apply bool_decide_eq_false_1 in Hstart.
      * apply IH in Hin as [Hs Hin]. split; [done|]. by apply elem_of_cons; right.
Qed.

Lemma slotsView_loop_sublist slots sv P :
  view_slot <$> slotsView_loop slots sv P [] `sublist_of` slots.
Proof.
  revert P. induction slots as [|slot rest IH]; intros P; simpl.
  - constructor.
  - case_bool_decide; [by apply sublist_cons|].
    destruct (List.find _ sv) as [s|].
    + rewrite slotsView_loop_app. simpl. by apply sublist_skip.
    + destruct (List.find (occupies_from_earlier slot) sv) as [s|];
        rewrite slotsView_loop_app; simpl; by apply sublist_skip.
Qed.

Lemma getOccupiedSlots_unrecognized code duration :
  code ∉ slot_codes -> getOccupiedSlots code duration = [code].
Proof.
  intros Hnot. unfold getOccupiedSlots. by rewrite findIndex_not_slot_code.
Qed.

Lemma Math_ceil_div_mono a a' b : 0 < b -> a <= a' -> Math_ceil_div a b <= Math_ceil_div a' b.
Proof.
  intros Hb Hle. unfold Math_ceil_div.
  pose proof (Z.div_le_mono (- a') (- a) b Hb). lia.
Qed.

Lemma TIME_SLOTS_value_inj slot slot' :
  slot ∈ TIME_SLOTS -> slot' ∈ TIME_SLOTS ->
  TimeSlot.value slot = TimeSlot.value slot' -> slot = slot'.
Proof.
  intros [i Hi]%list_elem_of_lookup_1 [j Hj]%list_elem_of_lookup_1 Heq.
  assert (i = j) as ->; [|congruence].
  apply (NoDup_lookup slot_codes i j (TimeSlot.value slot) slot_codes_NoDup);
    unfold slot_codes; rewrite list_lookup_fmap; [by rewrite Hi|by rewrite Hj, Heq].
Qed.

(** A slot nobody starts at or lies on is shown empty, provided every
    processed code is one some service lies on. *)
Lemma slotsView_loop_free slots sv P slot :
  (forall c, c ∈ P -> exists s, s ∈ sv /\ c ∈ service_slots s) ->
  slot ∈ slots ->
  slot_free sv (TimeSlot.value slot) ->
  ViewEmpty slot ∈ slotsView_loop slots sv P [].
Proof.
  intros HP Hin Hfree. revert P HP Hin.
  induction slots as [|slot0 rest IH]; intros P HP Hin; [by apply elem_of_nil in Hin|].
  simpl. apply elem_of_cons in Hin as [<-|Hin].
  - rewrite bool_decide_eq_false_2.
    2:{ intros (s & Hs & Hc)%HP. by destruct (Hfree s Hs). }
    replace (List.find _ sv) with (@None ScheduledServiceWithClient).
    2:{ symmetry. apply find_None_all. intros s Hs.
        apply bool_decide_eq_false_2. by destruct (Hfree s Hs). }
    replace (List.find (occupies_from_earlier slot) sv)
      with (@None ScheduledServiceWithClient).
    2:{ symmetry. apply find_None_all. intros s Hs.
        destruct (occupies_from_earlier slot s) eqn:Ho; [|done].
        apply occupies_from_earlier_true in Ho as (_ & _ & Hc).
        by destruct (Hfree s Hs). }
    rewrite slotsView_loop_app. apply elem_of_app. left. by apply list_elem_of_singleton.
  - case_bool_decide as Hproc; [by apply IH|].
    destruct (List.find _ sv) as [s0|] eqn:Hstart.
    + rewrite slotsView_loop_app. apply elem_of_app. right. apply IH; [|done].
      apply find_Some_elem in Hstart as [Hs0 Ht0]. apply bool_decide_eq_true_1 in Ht0.
      intros c [Hc|Hc]%elem_of_union; [by apply HP|].
      exists s0. split; [done|]. apply elem_of_list_to_set in Hc.
      unfold service_slots. by rewrite Ht0.
    + destruct (List.find (occupies_from_earlier slot0) sv) as [s0|] eqn:Hocc;
        rewrite slotsView_loop_app; apply elem_of_app; right; (apply IH; [|done]); [|done].
      apply find_Some_elem in Hocc as [Hs0 Ho].
      apply occupies_from_earlier_true in Ho as (_ & _ & Hc0).
      intros c [Hc|Hc]%elem_of_union; [by apply HP|].
      apply elem_of_singleton in Hc as ->. by exists s0.
Qed.

(** Each slot still to visit ends up in the view, or was processed already,
    or lies under the card of a service shown at its start slot. *)
Lemma slotsView_loop_covered slots sv P slot :
  slot ∈ slots ->
  (exists item, item ∈ slotsView_loop slots sv P []
                /\ TimeSlot.value (view_slot item) = TimeSlot.value slot)
  \/ TimeSlot.value slot ∈ P
  \/ (exists slot' s n,
        ViewServiceStart slot' s n ∈ slotsView_loop slots sv P []
        /\ TimeSlot.value slot ∈ service_slots s).
Proof.
  revert P. induction slots as [|slot0 rest IH]; intros P Hin;
    [by apply elem_of_nil in Hin|].
  simpl. apply elem_of_cons in Hin as [<-|Hin].
  - case_bool_decide as Hproc; [by right; left|]. left.
    destruct (List.find _ sv) as [s0|].
    + eexists. rewrite slotsView_loop_app. split; [apply elem_of_app; left;
        by apply list_elem_of_singleton|done].
    + destruct (List.find (occupies_from_earlier slot) sv) as [s0|];
        eexists; rewrite slotsView_loop_app;
        (split; [apply elem_of_app; left; by apply list_elem_of_singleton|done]).
  - case_bool_decide as Hproc; [by apply IH|].
    destruct (List.find _ sv) as [s0|] eqn:Hstart.
    + rewrite slotsView_loop_app.
      destruct (IH (P ∪ list_to_set
                      (getOccupiedSlots (TimeSlot.value slot0) (duration_or_30 s0))) Hin)
        as [(item & Hitem & Hv)|[HP|(slot' & s & n & Hitem & Hc)]].
      * left. exists item. split; [by apply elem_of_app; right|done].
      * apply elem_of_union in HP as [HP|HP]; [by right; left|].
        right. right. do 3 eexists. split.
        -- apply elem_of_app. left. by apply list_elem_of_singleton.
        -- apply find_Some_elem in Hstart as [_ Ht0].
           apply bool_decide_eq_true_1 in Ht0. apply elem_of_list_to_set in HP.
           unfold service_slots. by rewrite Ht0.
      * right. right. exists slot', s, n. split; [by apply elem_of_app; right|done].
    + destruct (List.find (occupies_from_earlier slot0) sv) as [s0|] eqn:Hocc;
        rewrite slotsView_loop_app.
      * destruct (IH (P ∪ {[TimeSlot.value slot0]}) Hin)
          as [(item & Hitem & Hv)|[HP|(slot' & s & n & Hitem & Hc)]].
        -- left. exists item. split; [by apply elem_of_app; right|done].
        -- apply elem_of_union in HP as [HP|HP]; [by right; left|].
           apply elem_of_singleton in HP. left. eexists. split.
           ++ apply elem_of_app. left. by apply list_elem_of_singleton.
           ++ done.
        -- right. right. exists slot', s, n. split; [by apply elem_of_app; right|done].
      * destruct (IH P Hin) as [(item & Hitem & Hv)|[HP|(slot' & s & n & Hitem & Hc)]].
        -- left. exists item. split; [by apply elem_of_app; right|done].
        -- by right; left.
        -- right. right. exists slot', s, n. split; [by apply elem_of_app; right|done].
Qed.

(** A service whose start slot nobody else starts at or lies on is shown
    at that slot. *)
Lemma slotsView_loop_shown slots sv P slot s :
  NoDup (TimeSlot.value <$> slots) ->
  slot ∈ slots ->
  s ∈ sv ->
  ScheduledService.scheduledTime (doc s) = TimeSlot.value slot ->
  (forall s', s' ∈ sv -> s' <> s ->
     ScheduledService.scheduledTime (doc s') <> TimeSlot.value slot
     /\ TimeSlot.value slot ∉ service_slots s') ->
  TimeSlot.value slot ∉ P ->
  ViewServiceStart slot s (Z.of_nat (length (service_slots s)))
    ∈ slotsView_loop slots sv P [].
Proof.
  intros Hnd Hin Hs Ht Hothers. revert P Hnd Hin.
  induction slots as [|slot0 rest IH]; intros P Hnd Hin HP;
    [by apply elem_of_nil in Hin|].
  simpl. rewrite fmap_cons in Hnd. apply NoDup_cons in Hnd as [Hfirst Hnd].
  apply elem_of_cons in Hin as [<-|Hin].
  - rewrite bool_decide_eq_false_2 by done.
    rewrite (find_only _ sv s); [|done|by apply bool_decide_eq_true_2|].
    + rewrite slotsView_loop_app. apply elem_of_app. left.
      apply list_elem_of_singleton. unfold service_slots. by rewrite Ht.
    + intros y Hy Hty. apply bool_decide_eq_true_1 in Hty.
      destruct (decide (y = s)) as [->|Hne]; [done|].
      by destruct (Hothers y Hy Hne).
  - assert (Hvne : TimeSlot.value slot0 <> TimeSlot.value slot).
    { intros Heq. apply Hfirst. rewrite Heq. by apply list_elem_of_fmap_2. }
    case_bool_decide as Hproc; [by apply IH|].
    destruct (List.find _ sv) as [s0|] eqn:Hstart.
    + rewrite slotsView_loop_app. apply elem_of_app. right. apply IH; [done..|].
      apply find_Some_elem in Hstart as [Hs0 Ht0]. apply bool_decide_eq_true_1 in Ht0.
      intros [Hc|Hc]%elem_of_union; [done|]. apply elem_of_list_to_set in Hc.
      assert (Hne : s0 <> s) by (intros ->; congruence).
      destruct (Hothers s0 Hs0 Hne) as [_ Hnot]. apply Hnot.
      unfold service_slots. by rewrite Ht0.
    + destruct (List.find (occupies_from_earlier slot0) sv) as [s0|] eqn:Hocc;
        rewrite slotsView_loop_app; apply elem_of_app; right; (apply IH; [done..|]);
        [|done].
      intros [Hc|Hc]%elem_of_union; [done|]. by apply elem_of_singleton in Hc.
Qed.

End DayView.

Section DayViewTheorems.

Implicit Types (slot : TimeSlot.t) (s service : ScheduledServiceWithClient).
Implicit Types (sv : list ScheduledServiceWithClient).

Lemma slotsView_eq sv : slotsView sv = slotsView_loop TIME_SLOTS sv ∅ [].
Proof. done. Qed.

(** X13. getOccupiedSlots never leaves the catalog and never repeats a
    slot. From a start that is not a catalog slot it returns that text
    alone, whatever the duration. From a catalog slot it returns distinct
    catalog slots in catalog order, none at all for a duration of zero or
    less, and a longer duration only adds slots at the end. *)
Theorem getOccupiedSlots_shape (startSlot : string) (duration : Z) :
  (startSlot ∉ slot_codes -> getOccupiedSlots startSlot duration = [startSlot])
  /\ (startSlot ∈ slot_codes ->
      getOccupiedSlots startSlot duration `sublist_of` slot_codes
      /\ NoDup (getOccupiedSlots startSlot duration)
      /\ (duration <= 0 -> getOccupiedSlots startSlot duration = [])
      /\ (forall longer, duration <= longer ->
            getOccupiedSlots startSlot duration
              `prefix_of` getOccupiedSlots startSlot longer)).
Proof.
  split; [apply getOccupiedSlots_unrecognized|].
  intros [idx Hidx]%elem_of_slot_codes_index.
  rewrite (getOccupiedSlots_from_catalog _ _ _ Hidx).
  assert (Hsub : take (Z.to_nat (Math_ceil_div duration 30)) (drop idx slot_codes)
                   `sublist_of` slot_codes).
  { etrans; [apply sublist_take|apply sublist_drop]. }
  split; [done|]. split; [|split].
  - eapply sublist_NoDup; [apply slot_codes_NoDup|exact Hsub].
  - intros Hle. pose proof (Math_ceil_div_spec duration 30 eq_refl).
    replace (Z.to_nat (Math_ceil_div duration 30)) with 0%nat by lia. done.
  - intros longer Hle. rewrite (getOccupiedSlots_from_catalog _ _ _ Hidx).
    pose proof (Math_ceil_div_mono duration longer 30 eq_refl Hle) as Hmono.
    set (n := Z.to_nat (Math_ceil_div duration 30)).
    set (m := Z.to_nat (Math_ceil_div longer 30)).
    replace m with (n + (m - n))%nat by lia.
    rewrite <- take_take_drop. by eexists.
Qed.

(** X14. The range a card displays ends where the last occupied slot ends:
    for a catalog start slot and a duration of at least one minute,
    formatTimeRange is the start time of the start slot, a dash, and the
    end time of the last slot getOccupiedSlots returns (with ':' shown as
    'h'). *)
Theorem formatTimeRange_ends_with_last_slot (idx : nat) (startSlot : string) (duration : Z) :
  slot_codes !! idx = Some startSlot ->
  1 <= duration ->
  exists lastSlot,
    last (getOccupiedSlots startSlot duration) = Some lastSlot
    /\ formatTimeRange startSlot duration =
       formatTime (default EmptyString (split_on "-" startSlot !! 0%nat))
       +:+ "–"
       +:+ formatTime (default EmptyString (split_on "-" lastSlot !! 1%nat)).
Proof.
  intros Hidx Hd.
  pose proof (Math_ceil_div_spec duration 30 eq_refl) as Hceil.
  pose proof (lookup_lt_Some _ _ _ Hidx) as Hlt. rewrite length_slot_codes in Hlt.
  set (n := Math_ceil_div duration 30) in *.
  set (endIndex := Z.min (Z.of_nat idx + n - 1) (Z.of_nat (length TIME_SLOTS) - 1)).
  destruct (lookup_lt_is_Some_2 TIME_SLOTS (Z.to_nat endIndex)) as [s Hs];
    [subst endIndex; lia|].
  assert (Hcode : slot_codes !! Z.to_nat endIndex = Some (TimeSlot.value s))
    by (unfold slot_codes; by rewrite list_lookup_fmap, Hs).
  exists (TimeSlot.value s). split.
  - rewrite (getOccupiedSlots_from_catalog _ _ _ Hidx). fold n.
    rewrite last_lookup, length_take, length_drop, length_slot_codes.
    rewrite lookup_take_lt by lia. rewrite lookup_drop.
    rewrite <- Hcode. f_equal. subst endIndex. lia.
  - unfold formatTimeRange. rewrite (findIndex_slot_code _ _ Hidx).
    destruct (Z.eqb_spec (Z.of_nat idx) (-1)) as [?|_]; [lia|].
    cbn zeta. fold n. fold endIndex.
    destruct (Z.ltb_spec endIndex 0) as [?|_]; [subst endIndex; lia|].
    rewrite Hs. rewrite bool_decide_eq_false_2; [done|].
    apply slot_codes_not_empty. by eapply list_elem_of_lookup_2.
Qed.

(** X15. The day view lists catalog slots in catalog order, each at most
    once (so at most thirteen items), and every item tells the truth: a
    service shown at a slot starts there and spans as many slots as
    getOccupiedSlots gives it; a service shown as continuing lies on that
    slot and started elsewhere; at an empty slot no service starts or
    continues. *)
Theorem slotsView_structure sv :
  view_slot <$> slotsView sv `sublist_of` TIME_SLOTS
  /\ (length (slotsView sv) <= length TIME_SLOTS)%nat
  /\ forall item, item ∈ slotsView sv -> item_sound sv item.
Proof.
  rewrite slotsView_eq.
  pose proof (slotsView_loop_sublist TIME_SLOTS sv ∅) as Hsub.
  split; [exact Hsub|]. split.
  - apply sublist_length in Hsub. by rewrite length_fmap in Hsub.
  - intros item Hin.
    by destruct (slotsView_loop_sound TIME_SLOTS sv ∅ item Hin) as [Hsound _].
Qed.

(** X16. A catalog slot is shown empty exactly when no service of the day
    starts at it or lies on it. With no service at all, the view is the
    thirteen catalog slots, all empty. *)
Theorem slotsView_empty_iff_free sv slot :
  (ViewEmpty slot ∈ slotsView sv
   <-> slot ∈ TIME_SLOTS /\ slot_free sv (TimeSlot.value slot))
  /\ slotsView [] = ViewEmpty <$> TIME_SLOTS.
Proof.
  split; [|by vm_compute]. rewrite slotsView_eq. split.
  - intros Hin.
    destruct (slotsView_loop_sound TIME_SLOTS sv ∅ _ Hin) as [Hsound Hslot].
    split; [exact Hslot|]. intros s Hs. destruct (Hsound s Hs) as [Hstart Hocc].
    split; [done|]. intros Hc.
    assert (Htime : ScheduledService.scheduledTime (doc s) = EmptyString).
    { destruct (decide (ScheduledService.scheduledTime (doc s) = EmptyString));
        [done|].
      assert (occupies_from_earlier slot s = true)
        by by apply occupies_from_earlier_true.
      congruence. }
    unfold service_slots in Hc. rewrite Htime in Hc.
    rewrite getOccupiedSlots_unrecognized in Hc
      by (intros Hmem; by apply slot_codes_not_empty in Hmem).
    apply list_elem_of_singleton in Hc.
    apply (slot_codes_not_empty (TimeSlot.value slot)); [|done].
    by apply list_elem_of_fmap_2.
  - intros [Hslot Hfree]. apply slotsView_loop_free; [|done..].
    by intros c ?%elem_of_empty.
Qed.

(** X17. No catalog slot is lost: each one either has its own item in the
    view, or lies under the card of a service that the view shows at its
    start slot. *)
Theorem slotsView_covers_catalog sv slot :
  slot ∈ TIME_SLOTS ->
  (exists item, item ∈ slotsView sv /\ view_slot item = slot)
  \/ (exists slot' s n,
        ViewServiceStart slot' s n ∈ slotsView sv
        /\ TimeSlot.value slot ∈ service_slots s).
Proof.
  intros Hslot. rewrite slotsView_eq.
  destruct (slotsView_loop_covered TIME_SLOTS sv ∅ slot Hslot)
    as [(item & Hitem & Hv)|[HP|Hcard]].
  - left. exists item. split; [done|].
    apply TIME_SLOTS_value_inj; [|done..].
    by destruct (slotsView_loop_sound TIME_SLOTS sv ∅ _ Hitem) as [_ ?].
  - by apply elem_of_empty in HP.
  - by right.
Qed.

(** X18. A service is shown at its start slot, with the number of slots it
    spans, whenever that slot is a catalog slot that no other service of the
    day starts at or lies on. *)
Theorem slotsView_shows_unobstructed sv slot s :
  slot ∈ TIME_SLOTS ->
  s ∈ sv ->
  ScheduledService.scheduledTime (doc s) = TimeSlot.value slot ->
  (forall s', s' ∈ sv -> s' <> s ->
     ScheduledService.scheduledTime (doc s') <> TimeSlot.value slot
     /\ TimeSlot.value slot ∉ service_slots s') ->
  ViewServiceStart slot s (Z.of_nat (length (service_slots s))) ∈ slotsView sv.
Proof.
  intros Hslot Hs Ht Hothers. rewrite slotsView_eq.
  apply slotsView_loop_shown; [apply slot_codes_NoDup|done..|].
  by intros ?%elem_of_empty.
Qed.

(** X19. The untimed list and the grid never show the same service: a
    service that appears in the view, at its start or as a continuation,
    has a catalog slot as its time and is not in servicesWithoutSlot; and
    every service of the day is in exactly one of the two groups. *)
Theorem servicesWithoutSlot_apart_from_view sv s :
  s ∈ sv ->
  (s ∈ servicesWithoutSlot sv
   <-> ScheduledService.scheduledTime (doc s) ∉ slot_codes)
  /\ (forall item slot n,
        item ∈ slotsView sv ->
        item = ViewServiceStart slot s n \/ item = ViewServiceContinuation slot s ->
        ScheduledService.scheduledTime (doc s) ∈ slot_codes
        /\ s ∉ servicesWithoutSlot sv).
Proof.
  intros Hs.
  assert (Hiff : s ∈ servicesWithoutSlot sv
                 <-> ScheduledService.scheduledTime (doc s) ∉ slot_codes).
  { unfold servicesWithoutSlot. rewrite list_elem_of_filter.
    rewrite orb_true_iff, negb_true_iff, bool_decide_eq_true.
    split.
    - intros [[Hempty|Hnone] _].
      + rewrite Hempty. intros Hin. by apply slot_codes_not_empty in Hin.
      + intros [slot [Heq Hslot]]%list_elem_of_fmap. rewrite Heq in Hnone.
        assert (existsb (fun slot0 =>
                           bool_decide (TimeSlot.value slot0 = TimeSlot.value slot))
                        TIME_SLOTS = true); [|congruence].
        apply existsb_exists. exists slot.
        split; [by apply list_elem_of_In|by apply bool_decide_eq_true_2].
    - intros Hnot. split; [|done]. right.
      destruct (existsb _ TIME_SLOTS) eqn:Hex; [|done].
      apply existsb_exists in Hex as (slot & Hslot & Heq).
      apply bool_decide_eq_true_1 in Heq. exfalso. apply Hnot. rewrite <- Heq.
      apply list_elem_of_fmap_2. by apply list_elem_of_In. }
  split; [exact Hiff|].
  intros item slot n Hitem Hshape. rewrite slotsView_eq in Hitem.
  destruct (slotsView_loop_sound TIME_SLOTS sv ∅ _ Hitem) as [Hsound Hslot].
  assert (Hrec : ScheduledService.scheduledTime (doc s) ∈ slot_codes).
  { clear Hitem. destruct Hshape as [-> | ->]; simpl in Hsound.
    - destruct Hsound as (_ & -> & _). by apply list_elem_of_fmap_2.
    - destruct Hsound as (_ & _ & Hne & Hc).
      destruct (decide (ScheduledService.scheduledTime (doc s) ∈ slot_codes))
        as [|Hnot]; [done|].
      unfold service_slots in Hc. rewrite getOccupiedSlots_unrecognized in Hc by done.
      apply list_elem_of_singleton in Hc. congruence. }
  split; [done|]. rewrite Hiff. tauto.
Qed.

End DayViewTheorems.

(* ===================================================================== *)
(** ** Further behaviour of dates, the recurrence and the form *)
(* ===================================================================== *)

Section DateFacts.

Import JSDate.

(** From the first day of the year 100 on, the year of a date is at least
    100, so [new Date(year, ...)] does not remap it into 1900..1999. *)
Lemma getFullYear_from_100 t : -683003 <= Day t -> 100 <= getFullYear t.
Proof.
  unfold getFullYear. generalize (Day t). clear t. intros z Hz.
  unfold civil_from_days. cbn zeta. cbn [fst snd].
  set (era := (z + 719468) / 146097).
  set (doe := z + 719468 - era * 146097).
  assert (Hdoe : 0 <= doe < 146097)
    by (subst doe era; Z.to_euclidean_division_equations; lia).
  assert (Hera : 0 <= era) by (subst era; Z.to_euclidean_division_equations; lia).
  destruct (year_of_era doe Hdoe) as [Hyoe Hdoy]. cbn zeta in Hyoe, Hdoy.
  set (yoe := (doe - doe / 1460 + doe / 36524 - doe / 146096) / 365) in *.
  set (doy := doe - (365 * yoe + yoe / 4 - yoe / 100)) in *.
  destruct (month_of_year doy Hdoy) as [Hmp Hd]. cbn zeta in Hmp, Hd.
  set (mp := (5 * doy + 2) / 153) in *.
  destruct (Z.eq_dec era 0) as [He|He];
    [|destruct (Z.ltb_spec mp 10);
      match goal with |- context [?a <=? 2] => destruct (Z.leb_spec a 2) end; lia].
  assert (doe = z + 719468) by (subst doe; lia).
  assert (36465 <= doe) by lia.
  assert (99 <= yoe) by (subst yoe; Z.to_euclidean_division_equations; lia).
  destruct (Z.eq_dec yoe 99) as [Hy|Hy].
  - assert (306 <= doy)
      by (subst doy; rewrite Hy; Z.to_euclidean_division_equations; lia).
    assert (10 <= mp) by (subst mp; Z.to_euclidean_division_equations; lia).
    destruct (Z.ltb_spec mp 10); [lia|]. destruct (Z.leb_spec (mp - 9) 2); lia.
  - destruct (Z.ltb_spec mp 10);
      match goal with |- context [?a <=? 2] => destruct (Z.leb_spec a 2) end; lia.
Qed.

Lemma Day_of_midnight c : Day (c * msPerDay) = c.
Proof. unfold Day. by apply Z.div_mul. Qed.

(** Year, month and day of month determine the day number, and conversely. *)
Lemma isSameDay_true_iff (date1 date2 : Z) :
  isSameDay date1 date2 = true <-> Day date1 = Day date2.
Proof.
  unfold isSameDay, getDate, getMonth, getFullYear.
  rewrite !andb_true_iff, !bool_decide_eq_true. split.
  - intros [[Hd Hm] Hy].
    destruct (civil_from_days_inv (Day date1)) as (H1 & _).
    destruct (civil_from_days_inv (Day date2)) as (H2 & _).
    rewrite <- H1, <- H2. f_equal; [done|lia|done].
  - by intros ->.
Qed.

(** X20. isSameDay compares year, month and day of month, and that is the
    same as comparing day numbers: two dates are the same day exactly when
    they fall in the same 24-hour day of the local calendar.  In particular
    the time of day plays no part: a date is on the same day as the midnight
    that starts its day. *)
Theorem isSameDay_iff_same_day_number (date1 date2 : Z) :
  (isSameDay date1 date2 = true <-> Day date1 = Day date2)
  /\ isSameDay date1 (Day date1 * msPerDay) = true.
Proof.
  split; [apply isSameDay_true_iff|].
  apply isSameDay_true_iff. by rewrite Day_of_midnight.
Qed.

(** Moving the day of month by [k] is the same time of day [k] days on. *)
Lemma setDate_shift t k : setDate t (getDate t + k) = t + k * msPerDay.
Proof.
  unfold setDate, MakeDate, TimeWithinDay. rewrite MakeDay_own_month.
  unfold Day. pose proof (Z.div_mod t msPerDay). unfold msPerDay in *. lia.
Qed.

Lemma TimeClip_in_range t :
  Z.abs t <= TZDate.maxTime -> TZDate.TimeClip t = Some t.
Proof.
  intros H. unfold TZDate.TimeClip. by destruct (Z.leb_spec (Z.abs t) TZDate.maxTime); [|lia].
Qed.

Lemma Day_shift t k : Day (t + k * msPerDay) = Day t + k.
Proof. unfold Day. by rewrite Z.div_add. Qed.

(** X21. getDateRange asks the time zone for the same time of day on the
    previous and on the next calendar day: in any zone its two dates are the
    zone's reading of the local times 24 hours before and after the local
    time of the base date. In a zone that keeps one offset, and away from
    the ends of the range of valid dates, they are exactly 24 hours before
    and after the base date, neither is on the day of the base date, and
    going forward from the previous date, or back from the next, leads to
    the base date again. *)
Theorem getDateRange_one_day (tz : TZDate.TimeZone) (baseDate : Z) :
  Zoned.getDateRange tz baseDate
  = (TZDate.TimeClip (TZDate.UTC tz (TZDate.LocalTime tz baseDate - msPerDay)),
     TZDate.TimeClip (TZDate.UTC tz (TZDate.LocalTime tz baseDate + msPerDay)))
  /\ forall offset,
       tz = TZDate.fixed offset ->
       Z.abs baseDate + 2 * msPerDay <= TZDate.maxTime ->
       Zoned.getDateRange tz baseDate
       = (Some (baseDate - msPerDay), Some (baseDate + msPerDay))
       /\ (Zoned.getDateRange tz (baseDate - msPerDay)).2 = Some baseDate
       /\ (Zoned.getDateRange tz (baseDate + msPerDay)).1 = Some baseDate
       /\ isSameDay (TZDate.LocalTime tz (baseDate - msPerDay))
                    (TZDate.LocalTime tz baseDate) = false
       /\ isSameDay (TZDate.LocalTime tz (baseDate + msPerDay))
                    (TZDate.LocalTime tz baseDate) = false.
Proof.
  assert (Hrange : forall t,
            Zoned.getDateRange tz t
            = (TZDate.TimeClip (TZDate.UTC tz (TZDate.LocalTime tz t - msPerDay)),
               TZDate.TimeClip (TZDate.UTC tz (TZDate.LocalTime tz t + msPerDay)))).
  { intros t. unfold Zoned.getDateRange, TZDate.setDate, TZDate.getDate. cbn zeta.
    replace (getDate (TZDate.LocalTime tz t) - 1)
      with (getDate (TZDate.LocalTime tz t) + (-1)) by lia.
    rewrite !setDate_shift. do 3 f_equal; lia. }
  split; [apply Hrange|]. intros offset -> Hbase.
  assert (Hfixed : forall t,
            Z.abs t + msPerDay <= TZDate.maxTime ->
            Zoned.getDateRange (TZDate.fixed offset) t
            = (Some (t - msPerDay), Some (t + msPerDay))).
  { intros t Ht. rewrite Hrange. unfold TZDate.UTC, TZDate.LocalTime.
    cbn [TZDate.fixed TZDate.LocalTZA_utc TZDate.LocalTZA_local].
    replace (t + offset - msPerDay - offset) with (t - msPerDay) by lia.
    replace (t + offset + msPerDay - offset) with (t + msPerDay) by lia.
    by rewrite !TimeClip_in_range by (unfold TZDate.maxTime, msPerDay in *; lia). }
  assert (Hday : msPerDay = 86400000) by done.
  rewrite !Hfixed by (unfold TZDate.maxTime in *; lia). cbn [fst snd].
  split; [done|]. split; [f_equal; lia|]. split; [f_equal; lia|].
  unfold TZDate.LocalTime. cbn [TZDate.fixed TZDate.LocalTZA_utc].
  pose proof (Day_shift (baseDate + offset) (-1)) as Hprev.
  pose proof (Day_shift (baseDate + offset) 1) as Hnext.
  split; apply not_true_is_false; rewrite isSameDay_true_iff.
  - replace (baseDate - msPerDay + offset) with (baseDate + offset + -1 * msPerDay) by lia.
    lia.
  - replace (baseDate + msPerDay + offset) with (baseDate + offset + 1 * msPerDay) by lia.
    lia.
Qed.

(** Across a change of the clocks the step is not 24 hours: from noon of
    3 November 2018 in America/Sao_Paulo the next date is noon of
    4 November, 23 hours later. *)
Example getDateRange_across_clock_change :
  Zoned.getDateRange Zoned.sao_paulo_2018 1541257200000
  = (Some (1541257200000 - 24 * msPerHour), Some (1541257200000 + 23 * msPerHour)).
Proof. vm_compute. reflexivity. Qed.




End DateFacts.

Section SortedLists.

Lemma StronglySorted_filter_keep {A} (R : relation A) (P : A -> Prop)
    `{!forall x, Decision (P x)} (l : list A) :
  StronglySorted R l -> StronglySorted R (filter P l).
Proof.
  induction 1 as [|x l Hl IH Hx]; [apply SSorted_nil|].
  rewrite filter_cons. case_decide; [|done].
  constructor; [done|]. apply Forall_forall. intros y [_ Hy]%list_elem_of_filter.
  rewrite Forall_forall in Hx. by apply Hx.
Qed.

Lemma StronglySorted_seqZ m n : StronglySorted Z.lt (seqZ m n).
Proof.
  destruct (Z.le_gt_cases n 0) as [Hn|Hn].
  { unfold seqZ. replace (Z.to_nat n) with 0%nat by lia. constructor. }
  rewrite <- (Z2Nat.id n) by lia. generalize (Z.to_nat n). clear n Hn. intros k.
  revert m. induction k as [|k IH]; intros m; [constructor|].
  rewrite seqZ_cons by lia. rewrite Nat2Z.inj_succ, Z.pred_succ.
  constructor; [apply IH|]. apply Forall_forall. intros y Hy%elem_of_seqZ. lia.
Qed.

(** Two strictly ascending lists with the same elements are equal. *)
Lemma ascending_ext (l1 l2 : list Z) :
  StronglySorted Z.lt l1 -> StronglySorted Z.lt l2 ->
  (forall x, x ∈ l1 <-> x ∈ l2) -> l1 = l2.
Proof.
  intros H1 H2 Hext.
  assert (Hnd : forall l, StronglySorted Z.lt l -> NoDup l).
  { induction 1 as [|x l Hl IH Hx]; constructor; [|done].
    rewrite Forall_forall in Hx. intros Hin. specialize (Hx _ Hin). lia. }
  apply (StronglySorted_unique_strong Z.lt); [|done..|].
  - intros; lia.
  - apply NoDup_Permutation; auto.
Qed.

End SortedLists.

Section RecurrenceGeneral.

Import JSDate ScheduleForm.

(** The loop from midnight of day [c] to midnight of day [e]: the noons
    of the days from [c] on whose weekday is selected, as far as the fuel
    and the end date allow. *)
Lemma generateRecurringDates_loop_days (fuel : nat) (c e : Z) weekdays dates :
  -683003 <= c ->
  generateRecurringDates_loop fuel (c * msPerDay) (e * msPerDay) weekdays dates =
  dates ++ ((fun D => D * msPerDay + 12 * msPerHour) <$>
            filter (fun D => includes weekdays ((D + 4) mod 7) = true)
                   (seqZ c (Z.min (Z.of_nat fuel) (e - c + 1)))).
Proof.
  revert c dates. induction fuel as [|fuel IH]; intros c dates Hc.
  - simpl. replace (seqZ c _) with (@nil Z); [by rewrite app_nil_r|].
    unfold seqZ. by replace (Z.to_nat (Z.min (Z.of_nat 0) (e - c + 1))) with 0%nat by lia.
  - cbn [generateRecurringDates_loop].
    destruct (Z.leb_spec (c * msPerDay) (e * msPerDay)) as [Hle|Hgt].
    + assert (c <= e) by (unfold msPerDay in *; lia).
      rewrite setDate_next_day.
      replace (c * msPerDay + msPerDay) with ((c + 1) * msPerDay) by lia.
      rewrite IH by lia.
      rewrite (seqZ_cons c) by lia.
      replace (Z.pred (Z.min (Z.of_nat (S fuel)) (e - c + 1)))
        with (Z.min (Z.of_nat fuel) (e - (c + 1) + 1)) by lia.
      rewrite filter_cons. unfold getDay, WeekDay. rewrite Day_of_midnight.
      destruct (includes weekdays ((c + 4) mod 7)) eqn:Hsel.
      * rewrite decide_True by done. rewrite fmap_cons, <- app_assoc. simpl.
        do 2 f_equal. rewrite make_noon_same_day.
        -- by rewrite Day_of_midnight.
        -- pose proof (getFullYear_from_100 (c * msPerDay)) as Hy.
           rewrite Day_of_midnight in Hy. lia.
      * rewrite decide_False by (by intros ?). done.
    + assert (e < c) by (unfold msPerDay in *; lia).
      replace (seqZ c _) with (@nil Z); [by rewrite app_nil_r|].
      unfold seqZ.
      by replace (Z.to_nat (Z.min (Z.of_nat (S fuel)) (e - c + 1))) with 0%nat by lia.
Qed.

(** generateRecurringDates in closed form, on local time values: the noons
    of the selected days from the start day [c] to the end day [e]. *)
Lemma generateRecurringDates_closed_form (s : State)
    (startYear startMonth startDay endYear endMonth endDay : Z) :
  parse_ymd (scheduledDate (formData s)) = Some (startYear, startMonth, startDay) ->
  parse_ymd (recurrenceEndDate s) = Some (endYear, endMonth, endDay) ->
  make 100 0 1 0 0 0 <= make startYear (startMonth - 1) startDay 0 0 0 ->
  exists c e,
    make startYear (startMonth - 1) startDay 0 0 0 = c * msPerDay
    /\ make endYear (endMonth - 1) endDay 0 0 0 = e * msPerDay
    /\ -683003 <= c
    /\ generateRecurringDates s =
       (fun D => D * msPerDay + 12 * msPerHour) <$>
       filter (fun D => includes (selectedWeekdays s) ((D + 4) mod 7) = true)
              (seqZ c (e - c + 1)).
Proof.
  intros Hstart Hend Hyear.
  assert (Hmid : forall y m d, make y m d 0 0 0
                 = MakeDay (if (0 <=? y) && (y <=? 99) then 1900 + y else y) m d
                   * msPerDay).
  { intros y m d. unfold make, MakeDate, MakeTime. lia. }
  unfold generateRecurringDates. rewrite Hstart, Hend.
  rewrite (Hmid startYear), (Hmid endYear) in *.
  set (c := MakeDay _ (startMonth - 1) startDay) in *.
  set (e := MakeDay _ (endMonth - 1) endDay) in *.
  exists c, e. split; [done|]. split; [done|].
  assert (H100 : make 100 0 1 0 0 0 = -683003 * msPerDay) by (vm_compute; reflexivity).
  assert (Hc : -683003 <= c) by (rewrite H100 in Hyear; unfold msPerDay in Hyear; lia).
  split; [done|]. cbn zeta.
  replace ((e * msPerDay - c * msPerDay) / msPerDay) with (e - c)
    by (replace (e * msPerDay - c * msPerDay) with ((e - c) * msPerDay) by lia;
        by rewrite Z.div_mul).
  rewrite generateRecurringDates_loop_days by done. rewrite app_nil_l.
  by replace (Z.min (Z.of_nat (Z.to_nat (e - c + 1))) (e - c + 1)) with (e - c + 1) by lia.
Qed.

(** In a steady zone, local times a day or more apart keep their order in
    UTC, and local times within the range of valid dates, a day away from
    its upper end, give valid dates. *)
Lemma UTC_lt (tz : TZDate.TimeZone) t1 t2 :
  TZDate.steady tz -> t1 + msPerDay <= t2 -> TZDate.UTC tz t1 < TZDate.UTC tz t2.
Proof. intros [_ Hvar] H. unfold TZDate.UTC. specialize (Hvar t2 t1). lia. Qed.

Lemma TimeClip_UTC (tz : TZDate.TimeZone) t :
  TZDate.steady tz ->
  -683003 * msPerDay <= t ->
  t + msPerDay <= TZDate.maxTime ->
  TZDate.TimeClip (TZDate.UTC tz t) = Some (TZDate.UTC tz t).
Proof.
  intros [Hbound _] Hlo Hhi. apply TimeClip_in_range. unfold TZDate.UTC.
  specialize (Hbound t). unfold TZDate.maxTime, msPerDay in *. lia.
Qed.

(** The loop stops at once when the current date is invalid, the end date
    is invalid, or the current date is after the end date. *)
Lemma Zoned_loop_stops (tz : TZDate.TimeZone) fuel currentDate endDate weekdays dates :
  (forall current end_, currentDate = Some current -> endDate = Some end_ ->
     end_ < current) ->
  Zoned.generateRecurringDates_loop tz fuel currentDate endDate weekdays dates = dates.
Proof.
  intros Hafter. destruct fuel as [|fuel]; [done|].
  cbn [Zoned.generateRecurringDates_loop].
  destruct currentDate as [current|]; [|done]. destruct endDate as [end_|]; [|done].
  specialize (Hafter _ _ eq_refl eq_refl).
  by destruct (Z.leb_spec current end_); [lia|].
Qed.

(** The loop in a time zone, from midnight of day [c] to midnight of day
    [e], when the zone is steady and the midnights of the days [c] to [e]
    exist in it. *)
Lemma Zoned_loop_days (tz : TZDate.TimeZone) (fuel : nat) (c e : Z) weekdays dates :
  TZDate.steady tz ->
  -683003 <= c ->
  (e + 2) * msPerDay <= TZDate.maxTime ->
  (forall D, c <= D <= e -> TZDate.reads_back tz (D * msPerDay)) ->
  Zoned.generateRecurringDates_loop tz fuel
    (Some (TZDate.UTC tz (c * msPerDay))) (Some (TZDate.UTC tz (e * msPerDay)))
    weekdays dates =
  dates ++ ((fun D => Some (TZDate.UTC tz (D * msPerDay + 12 * msPerHour))) <$>
            filter (fun D => includes weekdays ((D + 4) mod 7) = true)
                   (seqZ c (Z.min (Z.of_nat fuel) (e - c + 1)))).
Proof.
  intros Hsteady. revert c dates.
  induction fuel as [|fuel IH]; intros c dates Hc Hmax Hback.
  - simpl. replace (seqZ c _) with (@nil Z); [by rewrite app_nil_r|].
    unfold seqZ. by replace (Z.to_nat (Z.min (Z.of_nat 0) (e - c + 1))) with 0%nat by lia.
  - destruct (Z.le_gt_cases c e) as [Hle|Hgt].
    + cbn [Zoned.generateRecurringDates_loop].
      assert (Hcmp : TZDate.UTC tz (c * msPerDay) <= TZDate.UTC tz (e * msPerDay)).
      { destruct (Z.eq_dec c e) as [->|Hne]; [lia|].
        apply Z.lt_le_incl, UTC_lt; [done|]. unfold msPerDay. lia. }
      destruct (Z.leb_spec (TZDate.UTC tz (c * msPerDay)) (TZDate.UTC tz (e * msPerDay)))
        as [_|?]; [|lia].
      unfold TZDate.getDay, TZDate.getFullYear, TZDate.getMonth, TZDate.getDate,
        TZDate.setDate, TZDate.make.
      rewrite (Hback c) by lia.
      rewrite setDate_next_day.
      replace (c * msPerDay + msPerDay) with ((c + 1) * msPerDay) by lia.
      rewrite (TimeClip_UTC tz ((c + 1) * msPerDay))
        by (try done; unfold TZDate.maxTime, msPerDay in *; lia).
      rewrite IH; [|lia|done|intros D HD; apply Hback; lia].
      rewrite (seqZ_cons c) by lia.
      replace (Z.pred (Z.min (Z.of_nat (S fuel)) (e - c + 1)))
        with (Z.min (Z.of_nat fuel) (e - (c + 1) + 1)) by lia.
      rewrite filter_cons. unfold getDay, WeekDay. rewrite Day_of_midnight.
      destruct (includes weekdays ((c + 4) mod 7)) eqn:Hsel.
      * rewrite decide_True by done. rewrite fmap_cons, <- app_assoc. cbn [app].
        do 2 f_equal. rewrite make_noon_same_day.
        -- rewrite (Hback c) by lia. rewrite Day_of_midnight.
           apply TimeClip_UTC; [done|..];
             unfold TZDate.maxTime, msPerDay, msPerHour in *; lia.
        -- rewrite (Hback c) by lia.
           pose proof (getFullYear_from_100 (c * msPerDay)) as Hy.
           rewrite Day_of_midnight in Hy. lia.
      * rewrite decide_False by (by intros ?). done.
    + rewrite Zoned_loop_stops.
      * replace (seqZ c _) with (@nil Z); [by rewrite app_nil_r|].
        unfold seqZ.
        by replace (Z.to_nat (Z.min (Z.of_nat (S fuel)) (e - c + 1))) with 0%nat by lia.
      * intros current end_ [= <-] [= <-]. apply UTC_lt; [done|].
        unfold msPerDay. lia.
Qed.

(** X23. The recurrence expander, in a time zone. Take a zone whose offsets
    stay within a day of UTC and less than a day apart, and in which the
    midnight of every day from the start date to the end date exists; a
    start date on or after the first day of the year 100; and an end date
    two days or more before the end of the range of valid dates.
    Then generateRecurringDates returns valid dates only: in strictly
    ascending order, the zone's noon of every day from the start date to
    the end date inclusive whose weekday is selected, and nothing else.
    They are the dates of the local-calendar model, converted to UTC. When
    the end date is before the start date the result is empty. The loop
    needs as many rounds as there are days in the range. *)
Theorem generateRecurringDates_selected_days (tz : TZDate.TimeZone) (s : State)
    (startYear startMonth startDay endYear endMonth endDay : Z) (fuel : nat) :
  parse_ymd (scheduledDate (formData s)) = Some (startYear, startMonth, startDay) ->
  parse_ymd (recurrenceEndDate s) = Some (endYear, endMonth, endDay) ->
  let startDate := make startYear (startMonth - 1) startDay 0 0 0 in
  let endDate := make endYear (endMonth - 1) endDay 0 0 0 in
  make 100 0 1 0 0 0 <= startDate ->
  endDate + 2 * msPerDay <= TZDate.maxTime ->
  TZDate.steady tz ->
  (forall D, Day startDate <= D <= Day endDate ->
     TZDate.reads_back tz (D * msPerDay)) ->
  (Z.to_nat (Day endDate - Day startDate + 1) <= fuel)%nat ->
  exists dates : list Z,
    Zoned.generateRecurringDates tz fuel s = Some <$> dates
    /\ dates = TZDate.UTC tz <$> generateRecurringDates s
    /\ StronglySorted Z.lt dates
    /\ (forall t, t ∈ dates <->
          exists D, Day startDate <= D <= Day endDate
                    /\ includes (selectedWeekdays s) (getDay (D * msPerDay)) = true
                    /\ t = TZDate.UTC tz (D * msPerDay + 12 * msPerHour))
    /\ (endDate < startDate -> dates = []).
Proof.
  intros Hstart Hend startDate endDate Hyear Hmax Hsteady Hback Hfuel.
  destruct (generateRecurringDates_closed_form s _ _ _ _ _ _ Hstart Hend Hyear)
    as (c & e & Hc & He & Hc100 & Hlocal).
  subst startDate endDate. rewrite Hc, He in *. rewrite !Day_of_midnight in *.
  exists (TZDate.UTC tz <$> generateRecurringDates s).
  rewrite Hlocal, <- !list_fmap_compose.
  split; [|split; [done|split; [|split]]].
  - unfold Zoned.generateRecurringDates. rewrite Hstart, Hend. cbn zeta.
    unfold TZDate.make. rewrite Hc, He.
    destruct (Z.le_gt_cases c e) as [Hle|Hgt].
    + rewrite !TimeClip_UTC by (try done; unfold TZDate.maxTime, msPerDay in *; lia).
      rewrite Zoned_loop_days; [|done|done|lia|done]. rewrite app_nil_l.
      by replace (Z.min (Z.of_nat fuel) (e - c + 1)) with (e - c + 1) by lia.
    + rewrite Zoned_loop_stops.
      * unfold seqZ. by replace (Z.to_nat (e - c + 1)) with 0%nat by lia.
      * unfold TZDate.TimeClip. intros current end_ Hcurrent Hend_.
        destruct (Z.abs (TZDate.UTC tz (c * msPerDay)) <=? TZDate.maxTime); [|done].
        destruct (Z.abs (TZDate.UTC tz (e * msPerDay)) <=? TZDate.maxTime); [|done].
        injection Hcurrent as <-. injection Hend_ as <-.
        apply UTC_lt; [done|]. unfold msPerDay. lia.
  - apply (StronglySorted_fmap _ Z.lt Z.lt).
    + intros x y Hxy. cbn. apply UTC_lt; [done|]. unfold msPerDay. lia.
    + apply StronglySorted_filter_keep, StronglySorted_seqZ.
  - intros t. rewrite list_elem_of_fmap. split.
    + intros (D & -> & [Hsel HD]%list_elem_of_filter). apply elem_of_seqZ in HD.
      exists D. split; [lia|]. split; [|done].
      unfold getDay, WeekDay. by rewrite Day_of_midnight.
    + intros (D & HD & Hsel & ->). exists D. split; [done|].
      apply list_elem_of_filter. split; [|apply elem_of_seqZ; lia].
      unfold getDay, WeekDay in Hsel. by rewrite Day_of_midnight in Hsel.
  - intros Hlt. assert (e < c) by (unfold msPerDay in *; lia).
    unfold seqZ. by replace (Z.to_nat (e - c + 1)) with 0%nat by lia.
Qed.

(** Where the clocks skip midnight the premise on the zone fails, and with
    it the conclusion: in America/Sao_Paulo as it was in 2018, the request
    for every day from 1 to 7 November gives the noons of 1 to 6 November
    only. From 4 November on the current date of the loop is at 01:00, past
    the midnight that is the end date. *)
Example generateRecurringDates_skipped_midnight :
  Zoned.generateRecurringDates Zoned.sao_paulo_2018 30 Zoned.nov_2018_every_day
  = Some <$> [1541084400000; 1541170800000; 1541257200000;
              1541340000000; 1541426400000; 1541512800000]
  /\ ~ TZDate.reads_back Zoned.sao_paulo_2018 (make 2018 10 4 0 0 0).
Proof. split; [vm_compute; reflexivity|]. vm_compute. discriminate. Qed.

(** X24. validate accepts exactly the forms that have a client and a date
    and, when recurring, at least one weekday, an end date, and an end date
    that compares after the start date. *)
Theorem validate_accepts_iff (s : State) :
  (validate s).2 = true <->
  clientId (formData s) <> EmptyString
  /\ scheduledDate (formData s) <> EmptyString
  /\ (isRecurring s = true ->
      selectedWeekdays s <> []
      /\ recurrenceEndDate s <> EmptyString
      /\ js_string_le (recurrenceEndDate s) (scheduledDate (formData s)) = false).
Proof.
  assert (Hbool : (validate s).2 =
            negb (bool_decide (clientId (formData s) = EmptyString))
            && negb (bool_decide (scheduledDate (formData s) = EmptyString))
            && (if isRecurring s then
                  negb (Z.of_nat (length (selectedWeekdays s)) =? 0)
                  && negb (bool_decide (recurrenceEndDate s = EmptyString))
                  && negb (js_string_le (recurrenceEndDate s)
                             (scheduledDate (formData s)))
                else true)).
  { unfold validate. cbn [snd].
    destruct (bool_decide (clientId (formData s) = EmptyString));
      destruct (bool_decide (scheduledDate (formData s) = EmptyString));
      destruct (isRecurring s);
      try destruct (Z.of_nat (length (selectedWeekdays s)) =? 0);
      try destruct (bool_decide (recurrenceEndDate s = EmptyString));
      try destruct (js_string_le (recurrenceEndDate s) (scheduledDate (formData s)));
      cbn [negb andb]; rewrite ?insert_size_nonzero; try done;
      by apply bool_decide_eq_true_2, map_size_empty. }
  rewrite Hbool. rewrite !andb_true_iff, !negb_true_iff, !bool_decide_eq_false.
  assert (Hlen : (Z.of_nat (length (selectedWeekdays s)) =? 0) = false
                 <-> selectedWeekdays s <> []).
  { rewrite Z.eqb_neq. destruct (selectedWeekdays s); simpl; [|split; [done|lia]].
    split; [lia|done]. }
  destruct (isRecurring s).
  - rewrite !andb_true_iff, !negb_true_iff, bool_decide_eq_false, Hlen.
    split; [intros ((? & ?) & (? & ?) & ?)|intros (? & ? & Hrec)]; [tauto|].
    destruct (Hrec eq_refl) as (? & ? & ?). tauto.
  - split; [intros ((? & ?) & _)|intros (? & ? & _)]; [|tauto].
    split; [done|]. split; [done|]. discriminate.
Qed.

End RecurrenceGeneral.

Section WeekdayToggle.

#[local] Instance default_sort_le_total : Total default_sort_le.
Proof. intros a b. apply String.leb_total. Qed.

(** On single digits the order of the string forms is the numeric order. *)
Lemma default_sort_le_digits a b :
  0 <= a <= 9 -> 0 <= b <= 9 -> default_sort_le a b <-> a <= b.
Proof.
  intros Ha Hb.
  assert (Ha' : a = 0 \/ a = 1 \/ a = 2 \/ a = 3 \/ a = 4 \/ a = 5 \/ a = 6
                \/ a = 7 \/ a = 8 \/ a = 9) by lia.
  assert (Hb' : b = 0 \/ b = 1 \/ b = 2 \/ b = 3 \/ b = 4 \/ b = 5 \/ b = 6
                \/ b = 7 \/ b = 8 \/ b = 9) by lia.
  clear Ha Hb. unfold default_sort_le.
  repeat (destruct Ha' as [->|Ha']); try subst a;
    repeat (destruct Hb' as [->|Hb']); try subst b;
    vm_compute; split; intros H; try reflexivity; try discriminate;
    try (exfalso; by apply H).
Qed.

Lemma Sorted_weaken {A} (R R' : relation A) (l : list A) :
  (forall x y, x ∈ l -> y ∈ l -> R x y -> R' x y) -> Sorted R l -> Sorted R' l.
Proof.
  intros Hweak Hsorted. induction Hsorted as [|x l Hl IH Hhd]; [constructor|].
  constructor.
  - apply IH. intros y z Hy Hz. apply Hweak; by apply elem_of_cons; right.
  - destruct Hhd as [|y l' Hxy]; constructor.
    apply Hweak; [by apply elem_of_cons; left| |done].
    apply elem_of_cons; right. by apply elem_of_cons; left.
Qed.

Lemma StronglySorted_le_NoDup_lt (l : list Z) :
  StronglySorted Z.le l -> NoDup l -> StronglySorted Z.lt l.
Proof.
  induction 1 as [|x l Hl IH Hx]; intros Hnd; [constructor|].
  apply NoDup_cons in Hnd as [Hnotin Hnd]. constructor; [by apply IH|].
  rewrite Forall_forall in Hx |- *. intros y Hy. specialize (Hx y Hy).
  assert (x <> y) by (by intros ->). lia.
Qed.

Lemma StronglySorted_lt_NoDup (l : list Z) : StronglySorted Z.lt l -> NoDup l.
Proof.
  induction 1 as [|x l Hl IH Hx]; constructor; [|done].
  rewrite Forall_forall in Hx. intros Hin. specialize (Hx _ Hin). lia.
Qed.

(** The default sort on distinct single digits: ascending, same elements. *)
Lemma Array_sort_default_digits (l : list Z) :
  (forall d, d ∈ l -> 0 <= d <= 9) -> NoDup l ->
  StronglySorted Z.lt (Array_sort_default l)
  /\ forall d, d ∈ Array_sort_default l <-> d ∈ l.
Proof.
  intros Hdigits Hnd. unfold Array_sort_default.
  pose proof (merge_sort_Permutation default_sort_le l) as Hperm.
  assert (Hmem : forall d, d ∈ merge_sort default_sort_le l <-> d ∈ l)
    by (intros d; by rewrite Hperm).
  split; [|exact Hmem].
  apply StronglySorted_le_NoDup_lt; [|by rewrite Hperm].
  apply Sorted_StronglySorted; [intros x y z; lia|].
  eapply Sorted_weaken; [|apply (Sorted_merge_sort default_sort_le)].
  intros x y Hx%Hmem Hy%Hmem. by apply default_sort_le_digits; apply Hdigits.
Qed.

(** One toggle: the selection stays ascending, and [day] enters it if it
    was out and leaves it if it was in. *)
Lemma toggleWeekday_step (prev : list Z) (day : Z) :
  StronglySorted Z.lt prev ->
  (forall d, d ∈ prev -> 0 <= d <= 9) ->
  0 <= day <= 9 ->
  StronglySorted Z.lt (toggleWeekday prev day)
  /\ forall d, d ∈ toggleWeekday prev day
               <-> (d <> day /\ d ∈ prev) \/ (d = day /\ day ∉ prev).
Proof.
  intros Hsorted Hdigits Hday. unfold toggleWeekday, ScheduleForm.includes.
  case_bool_decide as Hin.
  - split; [by apply StronglySorted_filter_keep|].
    intros d. rewrite list_elem_of_filter. split; [tauto|].
    intros [?|[_ ?]]; tauto.
  - destruct (Array_sort_default_digits (prev ++ [day])) as [Hs Hmem].
    + intros d [?| ->%list_elem_of_singleton]%elem_of_app; [by apply Hdigits|done].
    + apply NoDup_app. split; [by apply StronglySorted_lt_NoDup|].
      split; [|apply NoDup_singleton].
      intros d Hd ->%list_elem_of_singleton. done.
    + split; [done|]. intros d. rewrite Hmem, elem_of_app, list_elem_of_singleton.
      split.
      * intros [Hd| ->]; [left|by right]. split; [by intros ->|done].
      * intros [[_ ?]|[-> _]]; [by left|by right].
Qed.

(** X25. Toggling a weekday keeps the selection strictly ascending, puts
    the day in when it was out and takes it out when it was in, touches no
    other day, and toggling the same day twice gives back the selection one
    started from. This holds for single-digit day numbers (the weekdays are
    0 to 6), where sorting by string form is sorting by value. *)
Theorem toggleWeekday_toggles (prev : list Z) (day : Z) :
  StronglySorted Z.lt prev ->
  (forall d, d ∈ prev -> 0 <= d <= 9) ->
  0 <= day <= 9 ->
  let next := toggleWeekday prev day in
  StronglySorted Z.lt next
  /\ (day ∈ next <-> day ∉ prev)
  /\ (forall d, d <> day -> d ∈ next <-> d ∈ prev)
  /\ toggleWeekday next day = prev.
Proof.
  intros Hsorted Hdigits Hday next.
  destruct (toggleWeekday_step prev day Hsorted Hdigits Hday) as [Hs Hmem].
  fold next in Hs, Hmem.
  split; [done|]. split; [|split].
  - rewrite Hmem. tauto.
  - intros d Hne. rewrite Hmem. tauto.
  - assert (Hdigits' : forall d, d ∈ next -> 0 <= d <= 9).
    { intros d [[_ ?]|[-> _]]%Hmem; [by apply Hdigits|done]. }
    destruct (toggleWeekday_step next day Hs Hdigits' Hday) as [Hs2 Hmem2].
    apply ascending_ext; [done..|].
    intros d. rewrite Hmem2, !Hmem.
    destruct (decide (d = day)) as [->|Hne]; [|tauto].
    destruct (decide (day ∈ prev)); tauto.
Qed.

End WeekdayToggle.

(* ===================================================================== *)
(** ** The further theorems at concrete stores and days *)
(* ===================================================================== *)

Lemma completeService_unlinked_example :
  let st := Scenario.one_booking (Scenario.pack walk_service 8 7 true)
              (Example.unlinked_walk scheduled) in
  let r := completeService (Scenario.snapshot "svc1" (Example.unlinked_walk scheduled))
             5 "op1" st in
  truthy_packId None = None
  /\ r.1 = Ok
  /\ packs r.2 = packs st
  /\ operations r.2 = ∅.
Proof.
  intros st r.
  destruct (completeService_unlinked
              (Scenario.snapshot "svc1" (Example.unlinked_walk scheduled)) 5 "op1" st
              eq_refl) as (Hpacks & Hops & Hok & _).
  split; [done|]. split; [|split; [exact Hpacks|exact Hops]].
  by destruct (Hok (Example.unlinked_walk scheduled) eq_refl).
Defined.

Lemma missing_documents_abort_example :
  let st := Example.no_pack (Scenario.booking walk completed (Some Scenario.day1)) in
  let service := Scenario.snapshot "svc1"
                   (Scenario.booking walk completed (Some Scenario.day1)) in
  packs st !! "pack1" = None
  /\ completeService service 5 "op1" st = (Failed PackNotFound, st)
  /\ revertServiceStatus service st = (Failed PackNotFound, st).
Proof.
  intros st service.
  destruct (missing_documents_abort service 5 "op1" st "pack1" eq_refl) as [Hmissing _].
  destruct (Hmissing eq_refl) as [Hc Hr].
  split; [done|]. split; [exact Hc|exact (Hr eq_refl)].
Defined.

Lemma complete_twice_debits_twice_example :
  let st := Scenario.one_booking (Scenario.pack walk_service 8 5 true)
              (Scenario.booking walk scheduled None) in
  let service := Scenario.snapshot "svc1" (Scenario.booking walk scheduled None) in
  let st1 := (completeService service 5 "op1" st).2 in
  5 + 2 * OPERATION_WEIGHTS walk <= 8
  /\ exists service1,
       stored_service "svc1" st1 = Some service1
       /\ ScheduledService.status (doc service1) = completed
       /\ exists p2, packs (completeService service1 6 "op2" st1).2 !! "pack1" = Some p2
                     /\ Pack.usedCredits p2 = 7.
Proof.
  intros st service st1.
  destruct (complete_twice_debits_twice service 5 6 "op1" "op2" st "pack1"
              (Scenario.pack walk_service 8 5 true))
    as (service1 & Hstored & Hstatus & _ & (p2 & Hp2 & Hused) & _); [evaluate..|].
  split; [evaluate|]. exists service1. split; [exact Hstored|]. split; [exact Hstatus|].
  exists p2. split; [exact Hp2|exact Hused].
Defined.

Lemma flip_after_complete_keeps_debit_example :
  let service := Scenario.snapshot "svc1"
                   (Scenario.booking walk completed (Some Scenario.day1)) in
  let r1 := cancelService "svc1" Example.one_completed in
  r1.1 = Ok
  /\ packs r1.2 = packs Example.one_completed
  /\ operations r1.2 = operations Example.one_completed.
Proof.
  intros service r1.
  destruct (flip_after_complete_keeps_debit service Example.one_completed cancelService)
    as (Hok & Hpacks & Hops & _); [by left|evaluate..|].
  split; [exact Hok|]. split; [exact Hpacks|exact Hops].
Defined.

Lemma revertServiceStatus_without_credit_example :
  let st := Scenario.one_booking (Scenario.pack walk_service 8 7 true)
              (Scenario.booking walk not_done None) in
  let r := revertServiceStatus
             (Scenario.snapshot "svc1" (Scenario.booking walk not_done None)) st in
  not_done <> completed
  /\ r.1 = Ok
  /\ packs r.2 = packs st
  /\ scheduledServices r.2 = {[ "svc1" := Scenario.booking walk scheduled None ]}.
Proof.
  intros st r.
  destruct (revertServiceStatus_without_credit
              (Scenario.snapshot "svc1" (Scenario.booking walk not_done None)) st)
    as (Hpacks & _ & Hok & _); [by left|].
  destruct (Hok (Scenario.booking walk not_done None) eq_refl) as [Hr Hsv].
  split; [done|]. split; [exact Hr|]. split; [exact Hpacks|].
  subst r. rewrite Hsv. evaluate.
Defined.

Lemma notDone_then_revert_restores_store_example :
  let st1 := (markAsNotDone "svc1" Scenario.walk_8_7).2 in
  exists service1,
    stored_service "svc1" st1 = Some service1
    /\ revertServiceStatus service1 st1 = (Ok, Scenario.walk_8_7).
Proof.
  intros st1.
  destruct (notDone_then_revert_restores_store "svc1" Scenario.walk_8_7
              (Scenario.booking walk scheduled None))
    as (service1 & Hstored & _ & Hback); [evaluate..|].
  exists service1. split; [exact Hstored|exact Hback].
Defined.

Lemma complete_then_revert_restores_store_example :
  let service := Scenario.snapshot "svc1" (Scenario.booking walk scheduled None) in
  let st1 := (completeService service 5 "op1" Scenario.walk_8_7).2 in
  7 + OPERATION_WEIGHTS walk <= 8
  /\ exists service1,
       stored_service "svc1" st1 = Some service1
       /\ revertServiceStatus service1 st1 = (Ok, Scenario.walk_8_7).
Proof.
  intros service st1. split; [evaluate|].
  apply (complete_then_revert_restores_store service 5 "op1" Scenario.walk_8_7 "pack1"
           (Scenario.pack walk_service 8 7 true)); evaluate.
Defined.

Lemma fresh_store_balanced : ledger_balanced Example.fresh.
Proof.
  intros packId p Hp. unfold Example.fresh, Scenario.one_booking in Hp. simpl in Hp.
  apply lookup_singleton_Some in Hp as [<- <-]. evaluate.
Qed.

Lemma one_completed_balanced : ledger_balanced Example.one_completed.
Proof.
  intros packId p Hp. unfold Example.one_completed in Hp. simpl in Hp.
  apply lookup_singleton_Some in Hp as [<- <-]. evaluate.
Qed.

Lemma debit_keeps_ledger_balanced_example :
  ledger_balanced Example.fresh
  /\ ledger_balanced
       (completeService (Scenario.snapshot "svc1" (Scenario.booking walk scheduled None))
          5 "op1" Example.fresh).2.
Proof.
  split; [apply fresh_store_balanced|].
  apply (debit_keeps_ledger_balanced Example.fresh "op1" fresh_store_balanced eq_refl).
Defined.

Lemma credit_keeps_ledger_balanced_example :
  let service := Scenario.snapshot "svc1"
                   (Scenario.booking walk completed (Some Scenario.day1)) in
  ledger_balanced Example.one_completed
  /\ operations (revertServiceStatus service Example.one_completed).2 = ∅
  /\ ledger_balanced (revertServiceStatus service Example.one_completed).2.
Proof.
  intros service.
  destruct (credit_keeps_ledger_balanced service Example.one_completed "pack1"
              (Scenario.pack walk_service 8 1 true) "op1" (Scenario.operation walk)
              one_completed_balanced)
    as (_ & Hops & Hbal);
    [evaluate|evaluate|evaluate|evaluate|evaluate|evaluate| |evaluate|evaluate|].
  { intros k' o' Hk' _. unfold Example.one_completed in Hk'. simpl in Hk'.
    by apply lookup_singleton_Some in Hk' as [<- _]. }
  split; [apply one_completed_balanced|]. split; [rewrite Hops; evaluate|exact Hbal].
Defined.

Lemma ledger_op_keeps_active_has_credit_example :
  active_has_credit (Scenario.pack walk_service 8 7 true)
  /\ active_has_credit (Scenario.pack walk_service 8 8 false).
Proof.
  assert (H : active_has_credit (Scenario.pack walk_service 8 7 true))
    by (intros _; simpl; lia).
  split; [exact H|].
  apply (ledger_op_keeps_active_has_credit
           (Debit (Scenario.snapshot "svc1" (Scenario.booking walk scheduled None)) 0 "op1")
           Scenario.walk_8_7 "pack1" (Scenario.pack walk_service 8 7 true));
    [evaluate|unfold pack_inv; simpl; lia|simpl; lia|exact H|evaluate].
Defined.

Lemma revert_twice_credits_twice_example :
  let service := Scenario.snapshot "svc1"
                   (Scenario.booking walk completed (Some Scenario.day1)) in
  let r1 := revertServiceStatus service Scenario.same_day_twice in
  exists p2, packs (revertServiceStatus service r1.2).2 !! "pack1" = Some p2
             /\ Pack.usedCredits p2 = 0.
Proof.
  intros service r1.
  destruct (revert_twice_credits_twice service Scenario.same_day_twice "pack1"
              (Scenario.pack walk_service 8 2 true))
    as (_ & _ & _ & p2 & Hp2 & Hused); [evaluate..|].
  exists p2. split; [exact Hp2|]. rewrite Hused. evaluate.
Defined.

Lemma delete_keeps_ledger_example :
  let service := Scenario.snapshot "svc1"
                   (Scenario.booking walk completed (Some Scenario.day1)) in
  let r := deleteScheduledService "svc1" Example.one_completed in
  1 + OPERATION_WEIGHTS walk <= 8
  /\ packs r.2 = packs Example.one_completed
  /\ operations r.2 = operations Example.one_completed
  /\ completeService service 5 "op2" r.2 = (Failed DocumentNotFound, r.2).
Proof.
  intros service r.
  destruct (delete_keeps_ledger service 5 "op2" Example.one_completed "pack1"
              (Scenario.pack walk_service 8 1 true))
    as (_ & Hpacks & Hops & _ & _ & Hfail); [evaluate..|].
  split; [evaluate|]. split; [exact Hpacks|]. split; [exact Hops|exact Hfail].
Defined.

Lemma debit_paths_agree_example :
  let service := Scenario.snapshot "svc1" (Scenario.booking walk scheduled None) in
  let r1 := completeService service 5 "op1" Scenario.walk_8_7 in
  let r2 := registerOperation "pack1" "client1" walk Scenario.day1 "op1" Scenario.walk_8_7 in
  r1.1 = r2.1 /\ packs r1.2 = packs r2.2 /\ operations r1.2 = operations r2.2.
Proof.
  intros service r1 r2.
  destruct (debit_paths_agree service 5 "op1" Scenario.walk_8_7 "pack1"
              (Scenario.booking walk scheduled None))
    as (Hout & Hpacks & Hops & _); [evaluate..|].
  split; [exact Hout|]. split; [exact Hpacks|exact Hops].
Defined.

Lemma getOccupiedSlots_shape_example :
  ("07:30" ∉ slot_codes)
  /\ getOccupiedSlots "07:30" 60 = ["07:30"]
  /\ "07:30-08:00" ∈ slot_codes
  /\ (getOccupiedSlots "07:30-08:00" 60
        `prefix_of` getOccupiedSlots "07:30-08:00" 120).
Proof.
  assert (Hout : "07:30" ∉ slot_codes)
    by (apply (bool_decide_unpack _); vm_compute; exact I).
  assert (Hin : "07:30-08:00" ∈ slot_codes)
    by (apply (bool_decide_unpack _); vm_compute; exact I).
  destruct (getOccupiedSlots_shape "07:30" 60) as [Hunrec _].
  destruct (getOccupiedSlots_shape "07:30-08:00" 60) as [_ Hrec].
  destruct (Hrec Hin) as (_ & _ & _ & Hprefix).
  split; [exact Hout|]. split; [exact (Hunrec Hout)|]. split; [exact Hin|].
  apply Hprefix. lia.
Defined.

Lemma formatTimeRange_ends_with_last_slot_example :
  1 <= 60
  /\ last (getOccupiedSlots "07:30-08:00" 60) = Some "08:00-08:30"
  /\ formatTimeRange "07:30-08:00" 60 = "07h30–08h30".
Proof.
  destruct (formatTimeRange_ends_with_last_slot 1 "07:30-08:00" 60 eq_refl)
    as (lastSlot & Hlast & Hrange); [lia|].
  split; [lia|].
  assert (Hl : lastSlot = "08:00-08:30")
    by (assert (Hc : last (getOccupiedSlots "07:30-08:00" 60) = Some "08:00-08:30")
          by (vm_compute; reflexivity); congruence).
  subst lastSlot. split; [exact Hlast|]. rewrite Hrange. vm_compute. reflexivity.
Defined.

Lemma slotsView_structure_example :
  ViewServiceStart (TimeSlot.mk "07:30-08:00" "07h30") Example.timed_0730 2
    ∈ slotsView Example.day
  /\ item_sound Example.day
       (ViewServiceStart (TimeSlot.mk "07:30-08:00" "07h30") Example.timed_0730 2).
Proof.
  assert (Hin : ViewServiceStart (TimeSlot.mk "07:30-08:00" "07h30") Example.timed_0730 2
                ∈ slotsView Example.day)
    by (apply (bool_decide_unpack _); vm_compute; exact I).
  split; [exact Hin|].
  destruct (slotsView_structure Example.day) as (_ & _ & Hsound).
  exact (Hsound _ Hin).
Defined.

Lemma slotsView_empty_iff_free_example :
  ViewEmpty (TimeSlot.mk "06:50-07:20" "06h50") ∈ slotsView Example.day
  /\ slot_free Example.day "06:50-07:20"
  /\ (ViewEmpty (TimeSlot.mk "08:00-08:30" "08h00") ∉ slotsView Example.day).
Proof.
  assert (Hin : ViewEmpty (TimeSlot.mk "06:50-07:20" "06h50") ∈ slotsView Example.day)
    by (apply (bool_decide_unpack _); vm_compute; exact I).
  destruct (slotsView_empty_iff_free Example.day (TimeSlot.mk "06:50-07:20" "06h50"))
    as [[Hfree _] _].
  destruct (slotsView_empty_iff_free Example.day (TimeSlot.mk "08:00-08:30" "08h00"))
    as [[Hfree' _] _].
  split; [exact Hin|]. split; [exact (proj2 (Hfree Hin))|].
  intros Hin'. destruct (Hfree' Hin') as [_ Hf].
  destruct (Hf Example.timed_0730) as [_ Hnot].
  - apply (bool_decide_unpack _). vm_compute. exact I.
  - apply Hnot. apply (bool_decide_unpack _). vm_compute. exact I.
Defined.

Lemma slotsView_covers_catalog_example :
  TimeSlot.mk "08:00-08:30" "08h00" ∈ TIME_SLOTS
  /\ exists slot' s n,
       ViewServiceStart slot' s n ∈ slotsView Example.day
       /\ "08:00-08:30" ∈ service_slots s.
Proof.
  assert (Hslot : TimeSlot.mk "08:00-08:30" "08h00" ∈ TIME_SLOTS)
    by (apply (bool_decide_unpack _); vm_compute; exact I).
  split; [exact Hslot|].
  destruct (slotsView_covers_catalog Example.day _ Hslot)
    as [(item & Hitem & Hv)|Hcard]; [|exact Hcard].
  exfalso.
  assert (Hnone : Forall (fun item => view_slot item <> TimeSlot.mk "08:00-08:30" "08h00")
                    (slotsView Example.day))
    by (apply (bool_decide_unpack _); vm_compute; exact I).
  rewrite Forall_forall in Hnone. by apply (Hnone item Hitem).
Defined.

Lemma slotsView_shows_unobstructed_example :
  Example.timed_0900 ∈ Example.day
  /\ ViewServiceStart (TimeSlot.mk "09:00-09:30" "09h00") Example.timed_0900 1
       ∈ slotsView Example.day.
Proof.
  assert (Hin : Example.timed_0900 ∈ Example.day)
    by (apply (bool_decide_unpack _); vm_compute; exact I).
  split; [exact Hin|].
  apply (slotsView_shows_unobstructed Example.day
           (TimeSlot.mk "09:00-09:30" "09h00") Example.timed_0900);
    [apply (bool_decide_unpack _); vm_compute; exact I|exact Hin|reflexivity|].
  intros s' Hs' Hne. unfold Example.day in Hs'.
  apply elem_of_cons in Hs' as [->|Hs'];
    [split; [discriminate|apply (bool_decide_unpack _); vm_compute; exact I]|].
  apply elem_of_cons in Hs' as [->|Hs']; [done|].
  apply list_elem_of_singleton in Hs' as ->.
  split; [discriminate|apply (bool_decide_unpack _); vm_compute; exact I].
Defined.

Lemma servicesWithoutSlot_apart_from_view_example :
  Example.untimed ∈ Example.day
  /\ Example.untimed ∈ servicesWithoutSlot Example.day
  /\ (Example.timed_0730 ∉ servicesWithoutSlot Example.day).
Proof.
  assert (Hin : Example.untimed ∈ Example.day)
    by (apply (bool_decide_unpack _); vm_compute; exact I).
  assert (Hin' : Example.timed_0730 ∈ Example.day)
    by (apply (bool_decide_unpack _); vm_compute; exact I).
  destruct (servicesWithoutSlot_apart_from_view Example.day Example.untimed Hin)
    as [Hiff _].
  destruct (servicesWithoutSlot_apart_from_view Example.day Example.timed_0730 Hin')
    as [Hiff' _].
  split; [exact Hin|]. split.
  - apply Hiff. apply (bool_decide_unpack _). vm_compute. exact I.
  - rewrite Hiff'. intros Hnot. apply Hnot.
    apply (bool_decide_unpack _). vm_compute. exact I.
Defined.

Lemma fixed_steady offset :
  Z.abs offset < JSDate.msPerDay -> TZDate.steady (TZDate.fixed offset).
Proof.
  intros H. split; intros; cbn; unfold JSDate.msPerDay in *; lia.
Qed.

Lemma fixed_reads_back offset t : TZDate.reads_back (TZDate.fixed offset) t.
Proof. unfold TZDate.reads_back, TZDate.LocalTime, TZDate.UTC. cbn. lia. Qed.

Lemma getDateRange_one_day_example :
  Zoned.getDateRange Zoned.sao_paulo Scenario.day1
  = (Some (Scenario.day1 - JSDate.msPerDay), Some (Scenario.day1 + JSDate.msPerDay))
  /\ (Zoned.getDateRange Zoned.sao_paulo (Scenario.day1 - JSDate.msPerDay)).2
     = Some Scenario.day1.
Proof.
  destruct (getDateRange_one_day Zoned.sao_paulo Scenario.day1) as [_ Hfixed].
  destruct (Hfixed (-3 * JSDate.msPerHour) eq_refl) as (Hrange & Hforth & _).
  - vm_compute. discriminate.
  - split; [exact Hrange|exact Hforth].
Defined.

Lemma generateRecurringDates_selected_days_example :
  JSDate.make 100 0 1 0 0 0 <= JSDate.make 2024 0 1 0 0 0
  /\ TZDate.steady Zoned.sao_paulo
  /\ Zoned.generateRecurringDates Zoned.sao_paulo 15 Scenario.jan_mon_wed
     = Some <$> [1704121200000; 1704294000000; 1704726000000;
                 1704898800000; 1705330800000]
  /\ 1704121200000 = TZDate.UTC Zoned.sao_paulo (JSDate.make 2024 0 1 12 0 0).
Proof.
  assert (Hyear : JSDate.make 100 0 1 0 0 0 <= JSDate.make 2024 0 1 0 0 0)
    by (vm_compute; discriminate).
  assert (Hsteady : TZDate.steady Zoned.sao_paulo)
    by (apply fixed_steady; vm_compute; reflexivity).
  destruct (generateRecurringDates_selected_days Zoned.sao_paulo Scenario.jan_mon_wed
              2024 1 1 2024 1 15 15 eq_refl eq_refl Hyear)
    as (dates & Hzoned & Hlocal & _).
  - vm_compute. discriminate.
  - exact Hsteady.
  - intros D _. apply fixed_reads_back.
  - vm_compute. lia.
  - split; [exact Hyear|]. split; [exact Hsteady|].
    split; [|vm_compute; reflexivity].
    rewrite Hzoned, Hlocal. vm_compute. reflexivity.
Defined.

Lemma toggleWeekday_toggles_example :
  StronglySorted Z.lt [1; 3]
  /\ toggleWeekday [1; 3] 2 = [1; 2; 3]
  /\ toggleWeekday (toggleWeekday [1; 3] 2) 2 = [1; 3].
Proof.
  assert (Hsorted : StronglySorted Z.lt [1; 3]) by (repeat constructor; lia).
  destruct (toggleWeekday_toggles [1; 3] 2 Hsorted) as (_ & _ & _ & Hback).
  - intros d Hd. apply elem_of_cons in Hd as [->|Hd]; [lia|].
    apply list_elem_of_singleton in Hd as ->. lia.
  - lia.
  - split; [exact Hsorted|]. split; [vm_compute; reflexivity|exact Hback].
Defined.

(** Beyond single digits the default sort is not numeric. *)
Example toggleWeekday_two_digits : toggleWeekday [2] 10 = [10; 2].
Proof. vm_compute. reflexivity. Qed.
